(** * SphinxTrainingHelper: pa_record.py and make_transcript_files.py

    A shallow embedding of the two scripts of the repository and the
    properties of their behaviour.

    - [PaRecord] embeds [pa_record.py]: the argument parsing done by
      [RecordingThread.__init__], the method [stop_recording], and [run]
      as a small-step function of the worker thread, interleaved with the
      calls of the main thread by a schedule.
    - [MakeTranscriptFiles] embeds [make_transcript_files.py]: the
      [directory] validator, [generate_files] and the string functions
      they use, over a small model of the file system. *)

From Stdlib Require Import ZArith Ascii String List Lia Bool.
From Stdlib Require Import Strings.Byte.
From Stdlib Require Import DecimalString DecimalNat.
From stdpp Require Import base option list gmap strings.

Local Open Scope string_scope.
Local Open Scope list_scope.
Local Open Scope Z_scope.

(* ===================================================================== *)
(** * pa_record.py *)
(* ===================================================================== *)

Module PaRecord.

(** The PortAudio sample formats imported from [pyaudio]. *)
Inductive sample_format : Type :=
  | paFloat32 | paInt32 | paInt24 | paInt16 | paInt8 | paUInt8
  | paCustomFormat.

(** The dict [formats] of [__init__]. *)
Definition formats : gmap string sample_format :=
  list_to_map
    [ ("paFloat32", paFloat32); ("paInt32", paInt32); ("paInt24", paInt24);
      ("paInt16", paInt16); ("paInt8", paInt8); ("paUInt8", paUInt8);
      ("paCustomFormat", paCustomFormat) ].

(** [pa_sample_format]: [None] stands for the raised [ValueError], which
    argparse turns into a usage message and exit. *)
Definition pa_sample_format (s : string) : option sample_format :=
  formats !! s.

(** The values given on the command line, per option; [None] when the
    option is absent. *)
Record cli : Type := {
  cli_output : option string;
  cli_rate : option string;
  cli_format : option string;
  cli_device : option string;
  cli_channels : option string;
  cli_chunk : option string
}.

(** The namespace [self.args] returned by [parse_args]. *)
Record namespace : Type := {
  output : string;
  rate : Z;
  pa_format : sample_format;
  device : Z;
  channels : Z;
  chunk : Z
}.

(** Outcome of building a [RecordingThread]: the parser either returns
    the namespace or prints a usage message and exits with status 2. *)
Inductive parsed (A : Type) : Type :=
  | Parsed (a : A)
  | UsageError.
Arguments Parsed {A} a.
Arguments UsageError {A}.

Section Parser.

(** The builtin [int], used as the [type=] converter of the integer
    options; [None] is its [ValueError]. *)
Variable py_int : string -> option Z.

(** An option with a converter and a default: the converter is applied
    to the value given on the command line; a default that is not a
    string is taken as it is. *)
Definition convert {A} (conv : string -> option A) (dflt : A)
    (v : option string) : parsed A :=
  match v with
  | None => Parsed dflt
  | Some s => match conv s with
              | Some a => Parsed a
              | None => UsageError
              end
  end.

(** A string default goes through the converter, as argparse does for
    [default="paUInt8"]. *)
Definition convert_str_default {A} (conv : string -> option A)
    (dflt : string) (v : option string) : parsed A :=
  match conv (default dflt v) with
  | Some a => Parsed a
  | None => UsageError
  end.

Definition parse_args (a : cli) : parsed namespace :=
  match convert py_int 8000 (cli_rate a),
        convert_str_default pa_sample_format "paUInt8" (cli_format a),
        convert py_int (-1) (cli_device a),
        convert py_int 1 (cli_channels a),
        convert py_int 1024 (cli_chunk a) with
  | Parsed r, Parsed f, Parsed d, Parsed c, Parsed k =>
      Parsed {| output := default "output.wav" (cli_output a);
                rate := r; pa_format := f; device := d;
                channels := c; chunk := k |}
  | _, _, _, _, _ => UsageError
  end.

End Parser.

(** ** The objects [run] works on *)

(** The keyword arguments of [p.open]. *)
Record stream_request : Type := {
  rq_format : sample_format;
  rq_channels : Z;
  rq_rate : Z;
  rq_input : bool;
  rq_input_device_index : option Z;
  rq_frames_per_buffer : Z
}.

(** The input stream: the request it was opened with and how often
    [stop_stream] and [close] were called on it. *)
Record pa_stream : Type := {
  st_request : stream_request;
  st_stopped : nat;
  st_closed : nat
}.

(** The [wave] writer: header parameters, the frame data written so far
    and how often [close] was called. *)
Record wave_write : Type := {
  wf_path : string;
  nchannels : Z;
  sampwidth : Z;
  framerate : Z;
  frames : list byte;
  wf_closed : nat
}.

(** Exceptions that can leave [run]. *)
Inductive exn : Type := IOError | ValueError | WaveError.

(** Where the worker thread stands in [run]. *)
Inductive wpc : Type :=
  | PSetup            (* not yet past lines 79-101 *)
  | PEnter            (* about to execute [self._recording = True] *)
  | PTest             (* at the test of the [while] *)
  | PBody             (* inside the loop body *)
  | PFinal            (* past the loop, about to finalize *)
  | PDone             (* [run] returned *)
  | PRaised (e : exn) (* [run] was left by an exception *).

(** A [RecordingThread] object together with the locals of [run]. *)
Record thread : Type := {
  args : namespace;
  _recording : bool;
  pc : wpc;
  pa_instances : nat;      (* [PyAudio()] calls *)
  pa_terminated : nat;     (* [p.terminate()] calls *)
  stream : option pa_stream;
  wf : option wave_write;
  pulled : nat             (* chunks read from the stream and written *)
}.

(** What lies outside the program: whether PortAudio opens the requested
    stream, whether the output path can be opened for writing, and what
    the successive blocking reads of the stream return ([None]: the read
    raises). *)
Record env : Type := {
  pa_open_ok : stream_request -> bool;
  wave_open_ok : string -> bool;
  dev_read : nat -> option (list byte)
}.

(** [PyAudio.get_sample_size]; the custom format has no size. *)
Definition get_sample_size (f : sample_format) : option Z :=
  match f with
  | paFloat32 | paInt32 => Some 4
  | paInt24 => Some 3
  | paInt16 => Some 2
  | paInt8 | paUInt8 => Some 1
  | paCustomFormat => None
  end.

(** ** [__init__], [stop_recording] and [run] *)

Definition new_thread (ns : namespace) : thread :=
  {| args := ns; _recording := false; pc := PSetup;
     pa_instances := 0; pa_terminated := 0;
     stream := None; wf := None; pulled := 0 |}.

Definition __init__ (py_int : string -> option Z) (a : cli) : parsed thread :=
  match parse_args py_int a with
  | Parsed ns => Parsed (new_thread ns)
  | UsageError => UsageError
  end.

Definition set_recording (b : bool) (t : thread) : thread :=
  {| args := args t; _recording := b; pc := pc t;
     pa_instances := pa_instances t; pa_terminated := pa_terminated t;
     stream := stream t; wf := wf t; pulled := pulled t |}.

Definition set_pc (p : wpc) (t : thread) : thread :=
  {| args := args t; _recording := _recording t; pc := p;
     pa_instances := pa_instances t; pa_terminated := pa_terminated t;
     stream := stream t; wf := wf t; pulled := pulled t |}.

Definition stop_recording (t : thread) : thread := set_recording false t.

(** The request built by lines 79-95 of [run]. *)
Definition open_request (ns : namespace) : stream_request :=
  let DEVICE_INDEX := if device ns <? 0 then None else Some (device ns) in
  {| rq_format := pa_format ns;
     rq_channels := channels ns;
     rq_rate := rate ns;
     rq_input := true;
     rq_input_device_index := DEVICE_INDEX;
     rq_frames_per_buffer := chunk ns |}.

(** [Wave_write.__del__]: a writer that is dropped closes itself; on a
    writer that is closed already this does nothing. *)
Definition wave_del (w : wave_write) : wave_write :=
  {| wf_path := wf_path w; nchannels := nchannels w; sampwidth := sampwidth w;
     framerate := framerate w; frames := frames w;
     wf_closed := match wf_closed w with O => 1 | S n => S n end |}.

(** An exception leaves [run]: the thread ends there and the locals are
    dropped.  The wave writer closes itself then; the stream and the
    PyAudio connection are closed by nothing. *)
Definition raised (x : exn) (t : thread) : thread :=
  {| args := args t; _recording := _recording t; pc := PRaised x;
     pa_instances := pa_instances t; pa_terminated := pa_terminated t;
     stream := stream t; wf := wave_del <$> wf t; pulled := pulled t |}.

(** The locals [p], [stream] and [wf] of [run]. *)
Definition set_locals (p : nat) (st : option pa_stream)
    (w : option wave_write) (t : thread) : thread :=
  {| args := args t; _recording := _recording t; pc := pc t;
     pa_instances := p; pa_terminated := pa_terminated t;
     stream := st; wf := w; pulled := pulled t |}.

(** [wave.open(path, 'wb')] followed by the setters that were reached. *)
Definition wave_open (path : string) (n w r : Z) : wave_write :=
  {| wf_path := path; nchannels := n; sampwidth := w; framerate := r;
     frames := []; wf_closed := 0 |}.

(** Lines 79-101: connect to PortAudio, open the stream, open the wave
    file and set its header parameters.  Each call may raise; what was
    opened before stays open.  [setnchannels] wants a count of 1 or more,
    [setsampwidth] a width from 1 to 4 and [setframerate] a rate above
    0. *)
Definition setup (e : env) (t : thread) : thread :=
  let ns := args t in
  let rq := open_request ns in
  let p := S (pa_instances t) in
  if negb (pa_open_ok e rq) then
    raised IOError (set_locals p (stream t) (wf t) t)
  else
  let st := Some {| st_request := rq; st_stopped := 0; st_closed := 0 |} in
  if negb (wave_open_ok e (output ns)) then
    raised IOError (set_locals p st (wf t) t)
  else
  let opened n w r := set_locals p st (Some (wave_open (output ns) n w r)) t in
  if channels ns <? 1 then raised WaveError (opened 0 0 0) else
  match get_sample_size (pa_format ns) with
  | None => raised ValueError (opened (channels ns) 0 0)
  | Some w =>
      if (w <? 1) || (4 <? w) then
        raised WaveError (opened (channels ns) 0 0)
      else if rate ns <=? 0 then
        raised WaveError (opened (channels ns) w 0)
      else set_pc PEnter (opened (channels ns) w (rate ns))
  end.

(** [wf.writeframes(data)]. *)
Definition writeframes (data : list byte) (w : wave_write) : wave_write :=
  {| wf_path := wf_path w; nchannels := nchannels w; sampwidth := sampwidth w;
     framerate := framerate w; frames := frames w ++ data;
     wf_closed := wf_closed w |}.

(** Line 106: one blocking read of [CHUNK] frames and its write. *)
Definition body (e : env) (t : thread) : thread :=
  match dev_read e (pulled t) with
  | None => raised IOError t
  | Some data =>
      {| args := args t; _recording := _recording t; pc := PTest;
         pa_instances := pa_instances t; pa_terminated := pa_terminated t;
         stream := stream t; wf := writeframes data <$> wf t;
         pulled := S (pulled t) |}
  end.

(** Lines 111-114. *)
Definition finalize (t : thread) : thread :=
  {| args := args t; _recording := _recording t; pc := PDone;
     pa_instances := pa_instances t;
     pa_terminated := S (pa_terminated t);
     stream :=
       (fun s => {| st_request := st_request s;
                    st_stopped := S (st_stopped s);
                    st_closed := S (st_closed s) |}) <$> stream t;
     wf :=
       (fun w => {| wf_path := wf_path w; nchannels := nchannels w;
                    sampwidth := sampwidth w; framerate := framerate w;
                    frames := frames w; wf_closed := S (wf_closed w) |})
         <$> wf t;
     pulled := pulled t |}.

(** One step of the worker thread.  The shared flag is written at
    [PEnter] and read at [PTest] only. *)
Definition run_step (e : env) (t : thread) : thread :=
  match pc t with
  | PSetup => setup e t
  | PEnter => set_pc PTest (set_recording true t)
  | PTest => if _recording t then set_pc PBody t else set_pc PFinal t
  | PBody => body e t
  | PFinal => finalize t
  | PDone | PRaised _ => t
  end.

(** The two threads: the main thread calls [stop_recording], the worker
    takes a step of [run]. *)
Inductive event : Type := Stop | Worker.

Definition step (e : env) (t : thread) (ev : event) : thread :=
  match ev with
  | Stop => stop_recording t
  | Worker => run_step e t
  end.

Definition exec (e : env) (sch : list event) (t : thread) : thread :=
  fold_left (step e) sch t.

(** ** Observations used in the statements *)

Definition stream_stops (t : thread) : nat := from_option st_stopped 0%nat (stream t).
Definition stream_closes (t : thread) : nat := from_option st_closed 0%nat (stream t).
Definition file_closes (t : thread) : nat := from_option wf_closed 0%nat (wf t).

(** The data section of the output file. *)
Definition data (t : thread) : list byte := from_option frames [] (wf t).

Definition finished (t : thread) : bool :=
  match pc t with PDone => true | _ => false end.

Definition in_loop (t : thread) : bool :=
  match pc t with PTest | PBody => true | _ => false end.

(** The states of a session as the flag and the position of the worker
    show them: recording while the flag is set inside the loop, stopping
    once it is cleared and until [run] has returned. *)
Definition recording_state (t : thread) : bool := _recording t && in_loop t.

Definition stopping_state (t : thread) : bool :=
  negb (_recording t)
  && (in_loop t || match pc t with PFinal => true | _ => false end).

Definition is_worker (ev : event) : bool :=
  match ev with Worker => true | Stop => false end.

(** The states a session can be in: those a schedule leads to from a new
    thread object. *)
Definition reachable (e : env) (t : thread) : Prop :=
  exists ns sch, t = exec e sch (new_thread ns).

(** Bytes per frame and per chunk of [CHUNK] frames. *)
Definition frame_size (ns : namespace) : Z :=
  channels ns * default 0 (get_sample_size (pa_format ns)).

Definition chunk_bytes (ns : namespace) : Z := chunk ns * frame_size ns.

(** The chunks returned by the first [n] reads of the stream. *)
Definition chunks_upto (e : env) (n : nat) : list (list byte) :=
  map (fun k => default [] (dev_read e k)) (seq 0 n).

(** ** What holds in every reachable state *)

(** Past the assignment of line 104 nothing sets the flag again. *)
Definition past_enter (t : thread) : bool :=
  match pc t with PSetup | PEnter => false | _ => true end.

(** How often the file was closed, by the position of the worker: once
    when [run] has returned, once by the writer itself when an exception
    has left [run] after the file was opened, and not before. *)
Definition file_closes_at (t : thread) : nat :=
  match pc t with
  | PDone => 1%nat
  | PRaised _ => match wf t with Some _ => 1%nat | None => 0%nat end
  | _ => 0%nat
  end.

(** The stream and the connection are closed once [run] has returned and
    not otherwise; the file is closed as its position says. *)
Definition closes_consistent (t : thread) : Prop :=
  let k := if finished t then 1%nat else 0%nat in
  stream_stops t = k /\ stream_closes t = k
  /\ file_closes t = file_closes_at t /\ pa_terminated t = k.

Definition opened_past_setup (t : thread) : Prop :=
  match pc t with
  | PSetup => stream t = None /\ wf t = None /\ pulled t = 0%nat
  | PEnter | PTest | PBody | PFinal | PDone =>
      is_Some (stream t) /\ is_Some (wf t)
  | PRaised _ => True
  end.

Definition data_in_order (e : env) (t : thread) : Prop :=
  data t = concat (chunks_upto e (pulled t))
  /\ forall k, (k < pulled t)%nat -> is_Some (dev_read e k).

Definition inv (e : env) (t : thread) : Prop :=
  closes_consistent t /\ opened_past_setup t /\ data_in_order e t.

(** ** Concrete inputs *)

(** [int] on a plain decimal literal with an optional minus sign. *)
Definition decimal_int (s : string) : option Z :=
  match s with
  | String "-" r =>
      match NilEmpty.uint_of_string r with
      | Some d => if String.eqb r "" then None else Some (- Z.of_nat (Nat.of_uint d))
      | None => None
      end
  | _ =>
      match NilEmpty.uint_of_string s with
      | Some d => if String.eqb s "" then None else Some (Z.of_nat (Nat.of_uint d))
      | None => None
      end
  end.

Definition no_options : cli :=
  {| cli_output := None; cli_rate := None; cli_format := None;
     cli_device := None; cli_channels := None; cli_chunk := None |}.

(** The names of the formats, as the keys of [formats]. *)
Definition format_names : list string :=
  ["paFloat32"; "paInt32"; "paInt24"; "paInt16"; "paInt8"; "paUInt8";
   "paCustomFormat"].

Definition set_cli_device (v : option string) (a : cli) : cli :=
  {| cli_output := cli_output a; cli_rate := cli_rate a;
     cli_format := cli_format a; cli_device := v;
     cli_channels := cli_channels a; cli_chunk := cli_chunk a |}.

(** [--rate 0 --device 99 --channels -1 --chunk 0] *)
Definition nonpositive : cli :=
  {| cli_output := None; cli_rate := Some "0"; cli_format := None;
     cli_device := Some "99"; cli_channels := Some "-1";
     cli_chunk := Some "0" |}.

(** The namespace of the defaults. *)
Definition defaults : namespace :=
  {| output := "output.wav"; rate := 8000; pa_format := paUInt8;
     device := -1; channels := 1; chunk := 1024 |}.

(** Two frames per chunk, one byte per frame. *)
Definition small : namespace :=
  {| output := "output.wav"; rate := 8000; pa_format := paUInt8;
     device := -1; channels := 1; chunk := 2 |}.

(** A device that delivers chunks for ever. *)
Definition steady : env :=
  {| pa_open_ok := fun _ => true; wave_open_ok := fun _ => true;
     dev_read := fun k => Some [x01; x02] |}.

(** A device whose third read fails. *)
Definition unplugged : env :=
  {| pa_open_ok := fun _ => true; wave_open_ok := fun _ => true;
     dev_read := fun k => if (k <? 2)%nat then Some [x01; x02] else None |}.

(** ** [record] *)

(** How the wait of the main thread ends: a line is read, ctrl+c is
    caught, or the read raises something else, as it does at the end of
    the input. *)
Inductive foreground : Type := Enter | KeyboardInterrupt | EOFError.

(** What [record] does after the wait: both branches of its [try] call
    [stop_recording]; another exception leaves [record] at once. *)
Definition after_wait (fg : foreground) : list event :=
  match fg with
  | KeyboardInterrupt => [Stop]
  | Enter => [Stop]
  | EOFError => []
  end.

(** [record(args)]: the thread is built and started, the main thread
    waits while the worker takes [before] steps, and the worker takes
    [after] more steps afterwards. *)
Definition record (py_int : string -> option Z) (e : env) (a : cli)
    (before : nat) (fg : foreground) (after : nat) : parsed thread :=
  match __init__ py_int a with
  | UsageError => UsageError
  | Parsed t =>
      Parsed (exec e (repeat Worker before ++ after_wait fg
                      ++ repeat Worker after) t)
  end.

(** The header of the wave file agrees with the arguments. *)
Definition header_of (ns : namespace) (w : wave_write) : Prop :=
  wf_path w = output ns /\ nchannels w = channels ns
  /\ Some (sampwidth w) = get_sample_size (pa_format ns)
  /\ framerate w = rate ns.

(** The stream was requested with the arguments, and the file carries
    them once the setup is through. *)
Definition header_inv (t : thread) : Prop :=
  (forall st, stream t = Some st -> st_request st = open_request (args t))
  /\ match pc t with
     | PEnter | PTest | PBody | PFinal | PDone =>
         exists w, wf t = Some w /\ header_of (args t) w
     | _ => forall w, wf t = Some w -> wf_path w = output (args t)
     end.

(** The chunks returned by the reads number [a] to [a + n - 1]. *)
Definition chunks_from (e : env) (a n : nat) : list (list byte) :=
  map (fun k => default [] (dev_read e k)) (seq a n).

End PaRecord.

(* ===================================================================== *)
(** * make_transcript_files.py *)
(* ===================================================================== *)

Module MakeTranscriptFiles.

Local Open Scope nat_scope.

(** ** Strings

    A [str] is a sequence of code points; the embedding covers the code
    points below 256. *)

Definition LF : ascii := "010"%char.
Definition CR : ascii := "013"%char.

(** [str.isspace] on one character: TAB to CR, FS to US, space, NEL and
    the no-break space. *)
Definition isspace (c : ascii) : bool :=
  let n := nat_of_ascii c in
  ((9 <=? n) && (n <=? 13)) || ((28 <=? n) && (n <=? 32))
  || (n =? 133) || (n =? 160).

Fixpoint lstrip (s : string) : string :=
  match s with
  | EmptyString => EmptyString
  | String c r => if isspace c then lstrip r else s
  end.

Fixpoint rstrip (s : string) : string :=
  match s with
  | EmptyString => EmptyString
  | String c r =>
      match rstrip r with
      | EmptyString => if isspace c then EmptyString else String c EmptyString
      | r' => String c r'
      end
  end.

(** [s.strip()] *)
Definition strip (s : string) : string := rstrip (lstrip s).

(** [s.split(sep)] for a separator of one character. *)
Fixpoint split (sep : ascii) (s : string) : list string :=
  match s with
  | EmptyString => [EmptyString]
  | String c r =>
      if Ascii.eqb c sep then EmptyString :: split sep r
      else match split sep r with
           | h :: tl => String c h :: tl
           | [] => [String c EmptyString]
           end
  end.

(** ["%04d" % n] for a count [n >= 0]. *)
Definition fmt_04d (n : nat) : string :=
  let d := NilEmpty.string_of_uint (Nat.to_uint n) in
  string_of_list_ascii (repeat "0"%char (4 - String.length d)) +:+ d.

(** Text-mode reading: ["\r\n"] and ["\r"] arrive as ["\n"]. *)
Fixpoint translate_newlines (s : string) : string :=
  match s with
  | EmptyString => EmptyString
  | String c r =>
      if Ascii.eqb c CR then
        match r with
        | String c' r' =>
            if Ascii.eqb c' LF then String LF (translate_newlines r')
            else String LF (translate_newlines r)
        | EmptyString => String LF EmptyString
        end
      else String c (translate_newlines r)
  end.

(** The lines of a text, each with its line end. *)
Fixpoint keepends (s : string) : list string :=
  match s with
  | EmptyString => []
  | String c r =>
      if Ascii.eqb c LF then String c EmptyString :: keepends r
      else match keepends r with
           | [] => [String c EmptyString]
           | l :: ls => String c l :: ls
           end
  end.

(** ** Paths ([posixpath]) *)

Definition SEP : ascii := "/"%char.
Definition DOT : ascii := "."%char.

Definition startswith (c : ascii) (s : string) : bool :=
  match s with
  | String c' _ => Ascii.eqb c' c
  | EmptyString => false
  end.

Fixpoint endswith (c : ascii) (s : string) : bool :=
  match s with
  | EmptyString => false
  | String c' EmptyString => Ascii.eqb c' c
  | String _ r => endswith c r
  end.

(** [os.path.basename]: what follows the last separator. *)
Definition basename (p : string) : string :=
  List.last (split SEP p) EmptyString.

Fixpoint all_dots (s : string) : bool :=
  match s with
  | EmptyString => true
  | String c r => Ascii.eqb c DOT && all_dots r
  end.

Fixpoint join_with (sep : string) (l : list string) : string :=
  match l with
  | [] => EmptyString
  | [x] => x
  | x :: r => x +:+ sep +:+ join_with sep r
  end.

(** [os.path.splitext(p)[0]] for a name without separator: the name
    without its last extension; leading dots do not start one. *)
Definition splitext_root (b : string) : string :=
  let parts := split DOT b in
  let root := join_with "." (removelast parts) in
  match parts with
  | [] | [_] => b
  | _ => if all_dots root then b else root
  end.

(** [os.path.join(a, b)] *)
Definition join (a b : string) : string :=
  if startswith SEP b then b
  else if String.eqb a EmptyString || endswith SEP a then a +:+ b
  else a +:+ "/" +:+ b.

(** ** Files and processes *)

Inductive node : Type := Dir | File (content : string).

(** What the program prints. *)
Inductive printed : Type :=
  | Usage                (* [parser.print_usage()] *)
  | Err (msg : string)   (* [print_err(msg)] *).

(** The file system as a map from paths to nodes, the paths on which the
    operating system refuses to create or open for writing (with the text
    of its error), what was printed so far, and the files the list
    [open_files] of [generate_files] holds; then the writes of a text to
    a path and the reads of a file that fail with an [IOError], with the
    text of the error. *)
Record world : Type := {
  fs : gmap string node;
  refused : string -> option string;
  console : list printed;
  open_files : list string;
  write_error : string -> string -> option string;
  read_error : string -> option string
}.

(** The input file object: its [name] and the text [readlines] reads. *)
Record infile : Type := {
  name : string;
  content : string
}.

(** A call returns, or the process exits with a status. *)
Inductive outcome (A : Type) : Type :=
  | Return (a : A) (w : world)
  | Exit (status : Z) (w : world).
Arguments Return {A} a w.
Arguments Exit {A} status w.

Definition set_fs (m : gmap string node) (w : world) : world :=
  {| fs := m; refused := refused w; console := console w;
     open_files := open_files w; write_error := write_error w;
     read_error := read_error w |}.

Definition set_open_files (l : list string) (w : world) : world :=
  {| fs := fs w; refused := refused w; console := console w;
     open_files := l; write_error := write_error w;
     read_error := read_error w |}.

Definition print (x : printed) (w : world) : world :=
  {| fs := fs w; refused := refused w; console := console w ++ [x];
     open_files := open_files w; write_error := write_error w;
     read_error := read_error w |}.

Definition print_err (msg : string) (w : world) : world := print (Err msg) w.

Definition exists_ (w : world) (p : string) : bool :=
  match fs w !! p with Some _ => true | None => false end.

Definition isdir (w : world) (p : string) : bool :=
  match fs w !! p with Some Dir => true | _ => false end.

(** [os.mkdir]: the error text, or the world with the new directory. *)
Definition mkdir (p : string) (w : world) : string + world :=
  match refused w p with
  | Some e => inl e
  | None => if exists_ w p then inl "File exists"
            else inr (set_fs (<[p := Dir]> (fs w)) w)
  end.

(** [open(path, "w")]: the error text, or the world with the file
    created or truncated. *)
Definition open_w (p : string) (w : world) : string + world :=
  match refused w p with
  | Some e => inl e
  | None => if isdir w p then inl "Is a directory"
            else inr (set_fs (<[p := File ""]> (fs w)) w)
  end.

(** [f.write(s)] on the file opened at [p]. *)
Definition write (p s : string) (w : world) : world :=
  set_fs (alter (fun n => match n with
                          | File c => File (c +:+ s)
                          | Dir => Dir
                          end) p (fs w)) w.

(** ** [generate_files] *)

(** [close_files] of [generate_files]: every file of the list is popped
    and closed. *)
Definition close_files (w : world) : world := set_open_files [] w.

(** [open_file] of [generate_files]: the file opened joins the list; on
    [IOError] the message is printed, the files opened so far are closed
    and the process exits with status 1. *)
Definition open_file (path mode : string) (w : world) : outcome string :=
  match open_w path w with
  | inr w' => Return path (set_open_files (open_files w' ++ [path]) w')
  | inl e =>
      Exit 1 (close_files
                (print_err ("Couldn't open '" +:+ path +:+ "' with mode '"
                            +:+ mode +:+ "': " +:+ e) w))
  end.

(** Lines 74-77: a write that raises [IOError] ends the program. *)
Definition write_failed (e : string) (w : world) : outcome unit :=
  Exit 1 (close_files
            (print_err ("Couldn't write to transcription file: " +:+ e) w)).

(** The body of the [for] loop over the lines read; [f2] and [f3] are the
    paths the two output files were opened at. *)
Fixpoint process_lines (name f2 f3 : string) (lines : list string)
    (count : nat) (w : world) : outcome unit :=
  match lines with
  | [] => Return tt w
  | line :: rest =>
      let line := hd EmptyString (split "#" (strip line)) in
      if String.eqb line EmptyString then
        process_lines name f2 f3 rest count w
      else
        let transcription_id := name +:+ "_" +:+ fmt_04d count in
        let s2 := "<s> " +:+ strip line +:+ " </s> ("
                  +:+ transcription_id +:+ ")" +:+ String LF "" in
        let s3 := transcription_id +:+ String LF "" in
        match write_error w f2 s2 with
        | Some e => write_failed e w
        | None =>
            let w := write f2 s2 w in
            match write_error w f3 s3 with
            | Some e => write_failed e w
            | None =>
                let w := write f3 s3 w in
                process_lines name f2 f3 rest (S count) w
            end
        end
  end.

Definition readlines (f : infile) : list string :=
  keepends (translate_newlines (content f)).

Definition transcript_name (f : infile) : string :=
  splitext_root (basename (name f)).

(** Where an output file goes: into [out_dir] when it is given and not
    empty, into the working directory otherwise. *)
Definition out_path (out_dir : option string) (filename : string) : string :=
  match out_dir with
  | Some d => if String.eqb d EmptyString then filename else join d filename
  | None => filename
  end.

(** The input file once the two output files are open: the file object
    reads the file of its name, and opening that very path with mode
    ["w"] has truncated it, so that nothing is left to read. *)
Definition after_opens (in_file : infile) (f2 f3 : string) : infile :=
  if String.eqb (name in_file) f2 || String.eqb (name in_file) f3
  then {| name := name in_file; content := EmptyString |}
  else in_file.

(** Lines 78-81: a read that raises [IOError] ends the program. *)
Definition read_failed (in_file : infile) (e : string) (w : world)
    : outcome unit :=
  Exit 1 (close_files
            (print_err ("Unable to read '" +:+ name in_file +:+ "': " +:+ e)
               w)).

Definition generate_files (in_file : infile) (out_dir : option string)
    (w : world) : outcome unit :=
  let name := transcript_name in_file in
  let transcription_filename := name +:+ ".transcription" in
  let fileids_filename := name +:+ ".fileids" in
  let w := set_open_files [MakeTranscriptFiles.name in_file] w in
  match open_file (out_path out_dir transcription_filename) "w" w with
  | Exit st w' => Exit st w'
  | Return f2 w2 =>
      match open_file (out_path out_dir fileids_filename) "w" w2 with
      | Exit st w' => Exit st w'
      | Return f3 w3 =>
          match read_error w3 (MakeTranscriptFiles.name in_file) with
          | Some e => read_failed in_file e w3
          | None =>
              let lines := readlines (after_opens in_file f2 f3) in
              match process_lines name f2 f3 lines 1 w3 with
              | Exit st w' => Exit st w'
              | Return _ w' => Return tt (close_files w')
              end
          end
      end
  end.

(** ** [directory] and the main program *)

Definition directory (path : option string) (w : world)
    : outcome (option string) :=
  match path with
  | None => Return None w
  | Some p =>
      if String.eqb p EmptyString then Return None w else
      let exists' := exists_ w p in
      if exists' && negb (isdir w p) then
        Exit 1 (print_err ("Expected directory path '" +:+ p
                           +:+ "' is not a directory.") (print Usage w))
      else if negb exists' then
        match mkdir p w with
        | inr w' => Return (Some p) w'
        | inl e =>
            Exit 1 (print_err ("Failed to create output directory '" +:+ p
                               +:+ "': " +:+ e) (print Usage w))
        end
      else Return (Some p) w
  end.


(** ** The contract, in its own words *)

(** A text cut at its first ['#']. *)
Fixpoint before_hash (s : string) : string :=
  match s with
  | EmptyString => EmptyString
  | String c r => if Ascii.eqb c "#" then EmptyString
                  else String c (before_hash r)
  end.

(** A line is ignored when trimming it and cutting it at the first ['#']
    leaves nothing. *)
Definition ignored (line : string) : bool :=
  String.eqb (before_hash (strip line)) EmptyString.

(** The trimmed text [T] of a line. *)
Definition sentence (line : string) : string :=
  strip (before_hash (strip line)).

(** The lines that are not ignored, in the order of the input. *)
Definition kept (lines : list string) : list string :=
  List.filter (fun l => negb (ignored l)) lines.

(** The elements of a list with their 1-based counts, starting at
    [count]. *)
Fixpoint numbered {A} (count : nat) (l : list A) : list (nat * A) :=
  match l with
  | [] => []
  | x :: r => (count, x) :: numbered (S count) r
  end.

Definition transcription_line (basename : string) (e : nat * string) : string :=
  "<s> " +:+ snd e +:+ " </s> (" +:+ basename +:+ "_" +:+ fmt_04d (fst e)
  +:+ ")" +:+ String LF "".

Definition fileids_line (basename : string) (e : nat * string) : string :=
  basename +:+ "_" +:+ fmt_04d (fst e) +:+ String LF "".

(** The concatenation of the lines of a file. *)
Definition cat (l : list string) : string :=
  fold_right String.append EmptyString l.



(** No write of the lines of these sentences is refused. *)
Definition writes_ok (w : world) (base f2 f3 : string)
    (entries : list (nat * string)) : Prop :=
  Forall (fun e => write_error w f2 (transcription_line base e) = None
                   /\ write_error w f3 (fileids_line base e) = None)
         entries.

(** The sentences of an input file with their counts. *)
Definition sentences (f : infile) : list (nat * string) :=
  numbered 1 (map sentence (kept (readlines f))).


(** The characters of a string. *)
Definition chars (s : string) : list ascii := list_ascii_of_string s.

(** In a line of [readlines] a line feed is the last character. *)
Fixpoint lf_last (s : string) : Prop :=
  match s with
  | EmptyString => True
  | String c r => (c = LF -> r = EmptyString) /\ lf_last r
  end.


(** ** Concrete inputs *)

Definition nl : string := String LF "".

Definition demo : infile :=
  {| name := "demo.txt";
     content := "hello world" +:+ nl +:+ "# comment" +:+ nl +:+ nl
                +:+ "foo # bar" +:+ nl |}.

(** Blank lines and comments only. *)
Definition remarks : infile :=
  {| name := "remarks.txt";
     content := "# one" +:+ nl +:+ "   " +:+ nl +:+ nl +:+ "  # two" |}.



(** An empty working directory in which nothing is refused. *)
Definition empty_world : world :=
  {| fs := ∅; refused := fun _ => None; console := []; open_files := [];
     write_error := fun _ _ => None; read_error := fun _ => None |}.


End MakeTranscriptFiles.

(* ===================================================================== *)
(** * Properties of pa_record.py *)
(* ===================================================================== *)

Module PaRecordProofs.
Import PaRecord.

Local Open Scope nat_scope.

(** ** Schedules *)

Lemma exec_app e s1 s2 t : exec e (s1 ++ s2) t = exec e s2 (exec e s1 t).
Proof. unfold exec. apply fold_left_app. Qed.

Lemma exec_cons e ev sch t : exec e (ev :: sch) t = exec e sch (step e t ev).
Proof. reflexivity. Qed.

Lemma exec_snoc e ev sch t : exec e (sch ++ [ev]) t = step e (exec e sch t) ev.
Proof. rewrite exec_app. reflexivity. Qed.

Lemma reachable_new e ns : reachable e (new_thread ns).
Proof. exists ns, []. reflexivity. Qed.

Lemma reachable_step e t ev : reachable e t -> reachable e (step e t ev).
Proof.
  intros (ns & sch & ->). exists ns, (sch ++ [ev]). now rewrite exec_snoc.
Qed.

Lemma reachable_exec e t sch : reachable e t -> reachable e (exec e sch t).
Proof.
  revert t. induction sch as [|ev sch IH]; intros t H; [exact H|].
  rewrite exec_cons. apply IH, reachable_step, H.
Qed.

(** A property kept by every step holds in every reachable state. *)
Lemma reachable_ind e (P : thread -> Prop) :
  (forall ns, P (new_thread ns)) ->
  (forall t ev, P t -> P (step e t ev)) ->
  forall t, reachable e t -> P t.
Proof.
  intros H0 HS t (ns & sch & ->).
  induction sch as [|ev sch IH] using rev_ind; [apply H0|].
  rewrite exec_snoc. apply HS, IH.
Qed.

(** ** The flag *)

Lemma stop_recording_clear t : _recording t = false -> stop_recording t = t.
Proof. destruct t; simpl; intros ->; reflexivity. Qed.

Lemma stop_recording_twice t : stop_recording (stop_recording t) = stop_recording t.
Proof. reflexivity. Qed.

Lemma iter_stop_recording n t :
  1 <= n -> Nat.iter n stop_recording t = stop_recording t.
Proof.
  induction n as [|n IH]; [lia|]. intros _. destruct n; [reflexivity|].
  change (stop_recording (Nat.iter (S n) stop_recording t) = stop_recording t).
  rewrite IH by lia. reflexivity.
Qed.

Lemma run_step_cleared e t :
  past_enter t = true -> _recording t = false ->
  past_enter (run_step e t) = true /\ _recording (run_step e t) = false.
Proof.
  unfold past_enter, run_step. intros Hp Hr.
  destruct (pc t) eqn:E; try discriminate; simpl.
  - rewrite Hr. simpl. auto.
  - unfold body. destruct (dev_read e (pulled t)); simpl; auto.
  - auto.
  - rewrite E. auto.
  - rewrite E. auto.
Qed.

Lemma exec_cleared e sch t :
  past_enter t = true -> _recording t = false ->
  past_enter (exec e sch t) = true /\ _recording (exec e sch t) = false
  /\ exec e sch t = exec e (List.filter is_worker sch) t.
Proof.
  revert t. induction sch as [|ev sch IH]; intros t Hp Hr; [auto|].
  destruct ev.
  - rewrite exec_cons. simpl step. rewrite (stop_recording_clear t Hr).
    simpl List.filter. auto.
  - assert (List.filter is_worker (Worker :: sch) = Worker :: List.filter is_worker sch)
      as -> by reflexivity.
    rewrite !exec_cons. simpl step.
    destruct (run_step_cleared e t Hp Hr) as [Hp' Hr']. auto.
Qed.

(** ** What holds in every reachable state *)

Lemma chunks_upto_S e n :
  chunks_upto e (S n) = chunks_upto e n ++ [default [] (dev_read e n)].
Proof.
  unfold chunks_upto. rewrite seq_S, map_app. reflexivity.
Qed.

Lemma inv_new e ns : inv e (new_thread ns).
Proof.
  repeat split; simpl; try reflexivity. intros k Hk. lia.
Qed.

Ltac unfold_obs :=
  unfold closes_consistent, opened_past_setup, data_in_order, finished,
    stream_stops, stream_closes, file_closes, file_closes_at, data in *.

Lemma inv_setup e t : pc t = PSetup -> inv e t -> inv e (setup e t).
Proof.
  intros Hpc (Hc & Ho & Hd & Hk). unfold_obs.
  rewrite Hpc in Hc, Ho. destruct Hc as (_ & _ & _ & Hc4).
  destruct Ho as (Hs & Hw & Hp).
  unfold setup, set_locals, set_pc. simpl. rewrite Hs, Hw, Hp, Hc4.
  repeat case_match; simpl; repeat split; eauto.
  all: intros k Hk'; simpl in Hk'; lia.
Qed.

Lemma inv_body e t : pc t = PBody -> inv e t -> inv e (body e t).
Proof.
  intros Hpc (Hc & Ho & Hd & Hk). unfold inv, body.
  destruct (dev_read e (pulled t)) as [d|] eqn:Hr; unfold_obs;
    unfold raised;
    rewrite Hpc in Hc, Ho; destruct Ho as ([st Hs] & [w Hw]);
    rewrite Hs, Hw in *;
    cbn [from_option fmap option_fmap option_map pulled wf stream pc
           writeframes frames set_pc pa_terminated st_stopped st_closed
           wf_closed raised wave_del] in *;
    destruct Hc as (C1 & C2 & C3 & C4).
  - repeat split; eauto.
    + rewrite chunks_upto_S, concat_app, Hr, <- Hd. simpl.
      now rewrite app_nil_r.
    + intros k Hlt. destruct (decide (k = pulled t)) as [->|Hne].
      * rewrite Hr. eauto.
      * apply Hk. lia.
  - rewrite C3. repeat split; eauto.
Qed.

Lemma inv_finalize e t : pc t = PFinal -> inv e t -> inv e (finalize t).
Proof.
  intros Hpc (Hc & Ho & Hd & Hk). unfold inv, finalize. unfold_obs.
  rewrite Hpc in Hc, Ho. destruct Ho as ([st Hs] & [w Hw]).
  rewrite Hs, Hw in *. simpl in *.
  destruct Hc as (Hc1 & Hc2 & Hc3 & Hc4). rewrite Hc1, Hc2, Hc3, Hc4.
  repeat split; eauto.
Qed.

Lemma inv_step e t ev : inv e t -> inv e (step e t ev).
Proof.
  intros H. destruct ev; simpl.
  - exact H.
  - unfold run_step. destruct (pc t) eqn:Hpc.
    + now apply inv_setup.
    + destruct H as (Hc & Ho & Hd). unfold inv. unfold_obs.
      rewrite Hpc in *. simpl. tauto.
    + destruct H as (Hc & Ho & Hd). unfold inv. unfold_obs.
      rewrite Hpc in *. destruct (_recording t); simpl; tauto.
    + now apply inv_body.
    + now apply inv_finalize.
    + exact H.
    + exact H.
Qed.

Lemma reachable_inv e t : reachable e t -> inv e t.
Proof.
  apply reachable_ind; [apply inv_new | intros; now apply inv_step].
Qed.

(** The arguments are fixed for the lifetime of the thread. *)
Lemma args_step e t ev : args (step e t ev) = args t.
Proof.
  destruct ev; [reflexivity|]. simpl. unfold run_step.
  destruct (pc t); try reflexivity.
  - unfold setup. repeat case_match; reflexivity.
  - destruct (_recording t); reflexivity.
  - unfold body. destruct (dev_read e (pulled t)); reflexivity.
Qed.

Lemma args_exec e sch t : args (exec e sch t) = args t.
Proof.
  revert t. induction sch as [|ev sch IH]; intros t; [reflexivity|].
  rewrite exec_cons, IH. apply args_step.
Qed.

(** ** Runs of the worker alone *)

Lemma exec_repeat_stop e n t : exec e (repeat Stop n) t = Nat.iter n stop_recording t.
Proof.
  revert t. induction n as [|n IH]; intros t; [reflexivity|].
  change (repeat Stop (S n)) with ([Stop] ++ repeat Stop n).
  rewrite exec_app, IH. simpl exec.
  clear IH. induction n as [|n IH]; [reflexivity|]. simpl. now rewrite IH.
Qed.

Lemma filter_is_worker_repeat sch :
  List.filter is_worker sch = repeat Worker (length (List.filter is_worker sch)).
Proof.
  induction sch as [|[] sch IH]; simpl; [reflexivity|exact IH|].
  f_equal. exact IH.
Qed.

Lemma exec_workers_done e k t :
  pc t = PDone -> exec e (repeat Worker k) t = t.
Proof.
  intros H. induction k as [|k IH]; [reflexivity|].
  simpl repeat. rewrite exec_cons. simpl step. unfold run_step.
  rewrite H. exact IH.
Qed.

(** Once the flag is cleared inside the loop, at most three steps of the
    worker end [run]: the chunk in flight, the test, the finalization. *)
Lemma drain e t k :
  _recording t = false -> in_loop t = true ->
  (pc t = PBody -> is_Some (dev_read e (pulled t))) ->
  3 <= k -> pc (exec e (repeat Worker k) t) = PDone.
Proof.
  intros Hr Hl Hread Hk.
  replace k with (3 + (k - 3)) by lia. rewrite repeat_app, exec_app.
  assert (H3 : pc (exec e (repeat Worker 3) t) = PDone).
  { unfold in_loop in Hl. simpl. destruct (pc t) eqn:Hpc; try discriminate.
    - unfold run_step at 3. rewrite Hpc, Hr. reflexivity.
    - destruct (Hread eq_refl) as [d Hd].
      unfold run_step at 3. rewrite Hpc. unfold body. rewrite Hd.
      unfold run_step at 2. simpl. rewrite Hr. reflexivity. }
  now rewrite exec_workers_done.
Qed.

(** ** Stopping *)

Lemma recording_state_inv t :
  recording_state t = true -> _recording t = true /\ in_loop t = true.
Proof. unfold recording_state. apply andb_prop. Qed.

Lemma in_loop_past_enter t : in_loop t = true -> past_enter t = true.
Proof. unfold in_loop, past_enter. destruct (pc t); auto. Qed.

(** C1, amended.  [stop_recording] is idempotent.  In every reachable
    state in which the session is recording, [n >= 1] calls leave the
    thread object as one call does; the call only clears the flag, so the
    session is then stopping and the call has returned with the worker
    where it was; in any interleaving that starts with the [n] calls,
    every later call is without effect; the stream and the PyAudio
    connection are closed once when [run] has returned and not otherwise,
    and the file is closed at most once; and when the read in flight
    succeeds, three steps of the worker end [run], whatever further calls
    are made. *)
Theorem C1_stop_recording_idempotent (e : env) (t : thread) (n : nat) :
  reachable e t -> recording_state t = true -> 1 <= n ->
  Nat.iter n stop_recording t = stop_recording t
  /\ stopping_state (stop_recording t) = true
  /\ pc (stop_recording t) = pc t
  /\ (forall sch,
        exec e (repeat Stop n ++ sch) t
        = exec e (Stop :: List.filter is_worker sch) t)
  /\ (forall sch,
        let t' := exec e (repeat Stop n ++ sch) t in
        let k := if finished t' then 1 else 0 in
        stream_stops t' = k /\ stream_closes t' = k /\ pa_terminated t' = k
        /\ file_closes t' = file_closes_at t' /\ file_closes t' <= 1
        /\ (finished t' = true -> file_closes t' = 1))
  /\ (forall sch,
        (pc t = PBody -> is_Some (dev_read e (pulled t))) ->
        3 <= length (List.filter is_worker sch) ->
        finished (exec e (repeat Stop n ++ sch) t) = true).
Proof.
  intros Hreach Hrec Hn.
  destruct (recording_state_inv t Hrec) as [Hflag Hloop].
  assert (Hiter := iter_stop_recording n t Hn).
  assert (Hsame : forall sch,
    exec e (repeat Stop n ++ sch) t
    = exec e (List.filter is_worker sch) (stop_recording t)).
  { intros sch. rewrite exec_app, exec_repeat_stop, Hiter.
    apply (exec_cleared e sch (stop_recording t)).
    - now apply in_loop_past_enter.
    - reflexivity. }
  split; [exact Hiter|]. split.
  { unfold stopping_state. simpl. unfold in_loop in *. simpl.
    now rewrite Hloop. }
  split; [reflexivity|]. split; [exact Hsame|]. split.
  - intros sch t' k.
    assert (Hr : reachable e t').
    { unfold t'. now apply reachable_exec. }
    destruct (reachable_inv e t' Hr) as ((C1 & C2 & C3 & C4) & _).
    fold k in C1, C2, C4.
    split; [exact C1|]. split; [exact C2|]. split; [exact C4|].
    split; [exact C3|]. rewrite C3. unfold file_closes_at, finished.
    split; [destruct (pc t'); try lia; destruct (wf t'); lia|].
    destruct (pc t'); try discriminate. reflexivity.
  - intros sch Hread Hk. rewrite Hsame, filter_is_worker_repeat.
    unfold finished. rewrite drain; auto.
Qed.

(** C1 at a session that is recording its second chunk. *)
Lemma C1_stop_recording_idempotent_witness :
  finished
    (exec steady (repeat Stop 3 ++ [Worker; Stop; Worker; Worker])
       (exec steady [Worker; Worker; Worker; Worker; Worker] (new_thread small)))
  = true.
Proof.
  refine (proj2 (proj2 (proj2 (proj2 (proj2
    (C1_stop_recording_idempotent steady
       (exec steady [Worker; Worker; Worker; Worker; Worker] (new_thread small))
       3 _ _ _))))) [Worker; Stop; Worker; Worker] _ _).
  - exists small, [Worker; Worker; Worker; Worker; Worker]. reflexivity.
  - reflexivity.
  - lia.
  - intros _. vm_compute. eauto.
  - simpl. lia.
Defined.

(** ** Chunks *)

Lemma length_chunks_upto e n (b : Z) :
  (forall k d, dev_read e k = Some d -> Z.of_nat (length d) = b) ->
  (forall k, k < n -> is_Some (dev_read e k)) ->
  Z.of_nat (length (concat (chunks_upto e n))) = (Z.of_nat n * b)%Z.
Proof.
  intros Hlen. induction n as [|n IH]; intros Hsome; [reflexivity|].
  rewrite chunks_upto_S, concat_app, length_app, Nat2Z.inj_add.
  rewrite IH by (intros k Hk; apply Hsome; lia).
  destruct (Hsome n) as [d Hd]; [lia|]. rewrite Hd. simpl.
  rewrite app_nil_r, (Hlen n d Hd). lia.
Qed.

(** The flag is read at the test of the loop and nowhere else. *)
Lemma run_step_ignores_flag e t :
  pc t <> PTest ->
  pc (run_step e (stop_recording t)) = pc (run_step e t)
  /\ data (run_step e (stop_recording t)) = data (run_step e t).
Proof.
  intros Hpc. unfold run_step.
  change (pc (stop_recording t)) with (pc t).
  destruct (pc t) eqn:E; try congruence; try (split; reflexivity).
  - unfold setup. cbn [args stop_recording set_recording].
    destruct (negb (pa_open_ok e _)); [split; reflexivity|].
    destruct (negb (wave_open_ok e _)); [split; reflexivity|].
    destruct (channels _ <? 1)%Z; [split; reflexivity|].
    destruct (get_sample_size _); [|split; reflexivity].
    destruct ((_ <? 1)%Z || _); [split; reflexivity|].
    destruct (rate _ <=? 0)%Z; split; reflexivity.
  - unfold body. simpl. destruct (dev_read e (pulled t)); split; reflexivity.
Qed.

(** C2. The stop is observed between chunks only.  When every read that
    succeeds returns [CHUNK] frames, the data of the output file are, in
    every reachable state, a whole number of chunks: as many as were
    pulled.  A call of [stop_recording] changes the next step of the
    worker only at the test of the loop; when it arrives while a chunk is
    in flight, the chunk is read and written whole, the worker then
    reaches the test and leaves the loop, and nothing more is written. *)
Theorem C2_stop_between_chunks (e : env) (t : thread) :
  reachable e t ->
  (forall k d, dev_read e k = Some d ->
               Z.of_nat (length d) = chunk_bytes (args t)) ->
  Z.of_nat (length (data t)) = (Z.of_nat (pulled t) * chunk_bytes (args t))%Z
  /\ (pc t <> PTest ->
      pc (run_step e (stop_recording t)) = pc (run_step e t)
      /\ data (run_step e (stop_recording t)) = data (run_step e t))
  /\ (pc t = PBody -> forall d, dev_read e (pulled t) = Some d ->
      let t' := run_step e (stop_recording t) in
      data t' = data t ++ d
      /\ Z.of_nat (length (data t'))
         = (Z.of_nat (S (pulled t)) * chunk_bytes (args t))%Z
      /\ pc t' = PTest
      /\ pc (run_step e t') = PFinal
      /\ forall sch, data (exec e sch t') = data t ++ d).
Proof.
  intros Hreach Hlen.
  destruct (reachable_inv e t Hreach) as (Hc & Ho & Hd & Hk).
  assert (Hwhole : Z.of_nat (length (data t))
                   = (Z.of_nat (pulled t) * chunk_bytes (args t))%Z).
  { rewrite Hd. now apply length_chunks_upto. }
  split; [exact Hwhole|]. split; [apply run_step_ignores_flag|].
  intros Hpc d Hread t'.
  unfold opened_past_setup in Ho. rewrite Hpc in Ho.
  destruct Ho as ([st Hs] & [w Hw]).
  assert (Ht' : data t' = data t ++ d /\ pc t' = PTest
                /\ _recording t' = false).
  { unfold t', run_step. simpl pc. rewrite Hpc. unfold body. simpl.
    rewrite Hread. unfold data. simpl. rewrite Hw. auto. }
  destruct Ht' as (Hdata & Hpc' & Hflag).
  split; [exact Hdata|]. split.
  { rewrite Hdata, length_app, Nat2Z.inj_add, Hwhole, (Hlen _ _ Hread). lia. }
  split; [exact Hpc'|]. split.
  { unfold run_step. now rewrite Hpc', Hflag. }
  intros sch. rewrite <- Hdata.
  assert (Hgen : forall u, _recording u = false ->
                 (pc u = PTest \/ pc u = PFinal \/ pc u = PDone) ->
                 data (exec e sch u) = data u).
  { clear. induction sch as [|ev sch IH]; intros u Hf Hp; [reflexivity|].
    rewrite exec_cons. destruct ev; simpl step.
    - rewrite stop_recording_clear by exact Hf. now apply IH.
    - unfold run_step. destruct Hp as [Hp|[Hp|Hp]]; rewrite Hp.
      + rewrite Hf. rewrite IH; auto.
      + rewrite IH; auto. unfold data. simpl. now destruct (wf u).
      + now apply IH; auto. }
  apply Hgen; auto.
Qed.

(** C2 at a session stopped while its second chunk is in flight. *)
Lemma C2_stop_between_chunks_witness :
  Z.of_nat (length (data
    (exec steady [Worker; Worker; Worker; Worker; Worker] (new_thread small))))
  = (Z.of_nat 1 * chunk_bytes small)%Z.
Proof.
  refine (proj1 (C2_stop_between_chunks steady
    (exec steady [Worker; Worker; Worker; Worker; Worker] (new_thread small))
    _ _)).
  - exists small, [Worker; Worker; Worker; Worker; Worker]. reflexivity.
  - intros k d H. injection H as <-. reflexivity.
Defined.

(** C5. The chunks are written in pull order.  In every reachable state
    the data of the output file are the concatenation of the chunks that
    the reads number 0, 1, ... returned, one chunk per read, each once; so
    chunk [N] lies just before chunk [N + 1], after the chunks pulled
    earlier and before those pulled later. *)
Theorem C5_chunks_in_pull_order (e : env) (t : thread) :
  reachable e t ->
  exists chunks : list (list byte),
    Forall2 (fun k c => dev_read e k = Some c) (seq 0 (pulled t)) chunks
    /\ data t = concat chunks
    /\ forall (N : nat) c1 c2,
         chunks !! N = Some c1 -> chunks !! (S N) = Some c2 ->
         data t = concat (take N chunks) ++ c1 ++ c2
                  ++ concat (drop (S (S N)) chunks).
Proof.
  intros Hreach.
  destruct (reachable_inv e t Hreach) as (_ & _ & Hd & Hk).
  exists (chunks_upto e (pulled t)). split; [|split; [exact Hd|]].
  - clear Hd. unfold chunks_upto.
    induction (pulled t) as [|n IH]; [constructor|].
    rewrite seq_S, map_app. apply Forall2_app.
    + apply IH. intros k Hlt. apply Hk. lia.
    + simpl. constructor; [|constructor].
      destruct (Hk n) as [d Hdn]; [lia|]. now rewrite Hdn.
  - intros N c1 c2 H1 H2. rewrite Hd.
    rewrite <- (take_drop N (chunks_upto e (pulled t))) at 1.
    rewrite concat_app. f_equal.
    rewrite (drop_S _ _ _ H1). simpl. f_equal.
    rewrite (drop_S _ _ _ H2). reflexivity.
Qed.

(** C5 after three chunks. *)
Lemma C5_chunks_in_pull_order_witness :
  exists chunks : list (list byte),
    Forall2 (fun k c => dev_read steady k = Some c) (seq 0 3) chunks
    /\ [x01; x02; x01; x02; x01; x02] = concat chunks
    /\ forall (N : nat) c1 c2,
         chunks !! N = Some c1 -> chunks !! (S N) = Some c2 ->
         [x01; x02; x01; x02; x01; x02]
         = concat (take N chunks) ++ c1 ++ c2
           ++ concat (drop (S (S N)) chunks).
Proof.
  refine (C5_chunks_in_pull_order steady
    (exec steady (repeat Worker 8) (new_thread small)) _).
  exists small, (repeat Worker 8). reflexivity.
Defined.

(** ** A read that fails *)

Lemma exec_raised e sch t x :
  pc t = PRaised x ->
  let t' := exec e sch t in
  pc t' = PRaised x /\ data t' = data t
  /\ stream_stops t' = stream_stops t /\ stream_closes t' = stream_closes t
  /\ file_closes t' = file_closes t /\ pa_terminated t' = pa_terminated t.
Proof.
  revert t. induction sch as [|ev sch IH]; intros t Hpc; simpl; [auto 10|].
  change (fold_left (step e) sch (step e t ev)) with (exec e sch (step e t ev)).
  destruct ev; simpl step.
  - apply (IH (stop_recording t)). exact Hpc.
  - unfold run_step. rewrite Hpc. now apply IH.
Qed.

(** With a failing read in flight [run] never returns. *)
Lemma read_in_flight_fails e sch u :
  pc u = PBody -> dev_read e (pulled u) = None ->
  finished (exec e sch u) = false.
Proof.
  revert u. induction sch as [|ev sch IH]; intros u Hpc Hread.
  - unfold finished. simpl. now rewrite Hpc.
  - rewrite exec_cons. destruct ev; simpl step.
    + apply IH; assumption.
    + unfold run_step. rewrite Hpc. unfold body. rewrite Hread.
      destruct (exec_raised e sch (raised IOError u) IOError eq_refl)
        as (H1 & _). unfold finished. now rewrite H1.
Qed.

(** C1 fails on the code in its last part: a session that is recording
    and whose read in flight fails is not finalized, however often
    [stop_recording] is called and whatever follows: [run] does not
    return, the stream is neither stopped nor closed and the PyAudio
    connection is not terminated. *)
Lemma C1_counterexample :
  recording_state (exec unplugged (repeat Worker 7) (new_thread small)) = true
  /\ forall n sch,
       let t' := exec unplugged (repeat Stop n ++ sch)
                   (exec unplugged (repeat Worker 7) (new_thread small)) in
       finished t' = false /\ stream_stops t' = 0 /\ stream_closes t' = 0
       /\ pa_terminated t' = 0.
Proof.
  split; [reflexivity|]. intros n sch t'.
  assert (Hfin : finished t' = false).
  { unfold t'. now apply read_in_flight_fails. }
  assert (Hreach : reachable unplugged t').
  { unfold t'. apply reachable_exec.
    exists small, (repeat Worker 7). reflexivity. }
  destruct (reachable_inv unplugged t' Hreach) as ((C1 & C2 & _ & C4) & _).
  rewrite Hfin in C1, C2, C4. auto.
Qed.

(** C3 fails on the code: with a device whose third read fails, the worker
    is in the loop with two chunks written; whatever happens after the
    failing read, [run] has been left by the exception, nothing is
    reported but that, and the stream and the PyAudio connection are
    never released. *)
Lemma C3_counterexample :
  pc (exec unplugged (repeat Worker 7) (new_thread small)) = PBody
  /\ dev_read unplugged
       (pulled (exec unplugged (repeat Worker 7) (new_thread small))) = None
  /\ forall sch,
       let t' := exec unplugged (repeat Worker 7 ++ Worker :: sch)
                   (new_thread small) in
       pc t' = PRaised IOError /\ finished t' = false
       /\ stream_stops t' = 0 /\ stream_closes t' = 0
       /\ pa_terminated t' = 0.
Proof.
  split; [reflexivity|]. split; [reflexivity|].
  intros sch t'. unfold t'. rewrite exec_app, exec_cons.
  destruct (exec_raised unplugged sch
              (step unplugged
                 (exec unplugged (repeat Worker 7) (new_thread small)) Worker)
              IOError eq_refl) as (H1 & _ & H2 & H3 & _ & H5).
  unfold finished. rewrite H1, H2, H3, H5. repeat split; reflexivity.
Qed.

(** C3, amended.  When a read fails in the loop, the [IOError] leaves
    [run]: the worker ends there and nothing else is reported.  The wave
    writer closes itself as it is dropped, so the file is closed, once,
    and holds the chunks read before the failure; but in no continuation
    does [run] stop or close the stream or terminate the PyAudio
    connection; calls of [stop_recording] still return. *)
Theorem C3_read_failure_leaves_run (e : env) (t : thread) :
  reachable e t -> pc t = PBody -> dev_read e (pulled t) = None ->
  pc (run_step e t) = PRaised IOError
  /\ data t = concat (chunks_upto e (pulled t))
  /\ forall sch,
       let t' := exec e sch (run_step e t) in
       pc t' = PRaised IOError /\ data t' = data t
       /\ file_closes t' = 1
       /\ stream_stops t' = 0 /\ stream_closes t' = 0
       /\ pa_terminated t' = 0.
Proof.
  intros Hreach Hpc Hread.
  destruct (reachable_inv e t Hreach) as (Hc & Ho & Hd & _).
  unfold closes_consistent, finished, file_closes_at in Hc.
  unfold opened_past_setup in Ho. rewrite Hpc in Hc, Ho.
  destruct Hc as (Hc1 & Hc2 & Hc3 & Hc4). destruct Ho as (_ & [w Hw]).
  assert (Hstep : run_step e t = raised IOError t).
  { unfold run_step. rewrite Hpc. unfold body. now rewrite Hread. }
  rewrite Hstep. split; [reflexivity|]. split; [exact Hd|].
  intros sch t'.
  destruct (exec_raised e sch (raised IOError t) IOError eq_refl)
    as (H1 & H0 & H2 & H3 & H4 & H5).
  unfold t'. rewrite H1, H0, H2, H3, H4, H5.
  assert (Hdata : data (raised IOError t) = data t).
  { unfold data. simpl. rewrite Hw. reflexivity. }
  assert (Hfile : file_closes (raised IOError t) = 1).
  { unfold file_closes in *. simpl. rewrite Hw in *. simpl in *.
    now rewrite Hc3. }
  rewrite Hdata, Hfile. auto 10.
Qed.

(** C3, amended, at the device whose third read fails. *)
Lemma C3_read_failure_leaves_run_witness :
  pc (run_step unplugged (exec unplugged (repeat Worker 7) (new_thread small)))
  = PRaised IOError.
Proof.
  refine (proj1 (C3_read_failure_leaves_run unplugged
    (exec unplugged (repeat Worker 7) (new_thread small)) _ _ _)).
  - exists small, (repeat Worker 7). reflexivity.
  - reflexivity.
  - reflexivity.
Defined.

(** ** The flag before the loop *)

Lemma run_step_recording e t :
  (forall i, is_Some (dev_read e i)) ->
  recording_state t = true -> recording_state (run_step e t) = true.
Proof.
  intros Hdev Hrec. destruct (recording_state_inv t Hrec) as [Hf Hl].
  unfold in_loop in Hl. unfold run_step, recording_state, in_loop.
  destruct (pc t) eqn:Hpc; try discriminate.
  - rewrite Hf. simpl. now rewrite Hf.
  - unfold body. destruct (Hdev (pulled t)) as [d ->]. simpl. now rewrite Hf.
Qed.

Lemma exec_workers_recording e t j :
  (forall i, is_Some (dev_read e i)) ->
  recording_state t = true ->
  recording_state (exec e (repeat Worker j) t) = true.
Proof.
  intros Hdev. revert t. induction j as [|j IH]; intros t Hrec; [exact Hrec|].
  simpl repeat. rewrite exec_cons. apply IH. now apply run_step_recording.
Qed.

Lemma exec_workers_pulled e t j :
  (forall i, is_Some (dev_read e i)) ->
  _recording t = true -> pc t = PTest ->
  pc (exec e (repeat Worker (2 * j)) t) = PTest
  /\ pulled (exec e (repeat Worker (2 * j)) t) = pulled t + j.
Proof.
  intros Hdev. revert t. induction j as [|j IH]; intros t Hf Hpc.
  - simpl. split; [exact Hpc|lia].
  - replace (2 * S j) with (2 + 2 * j) by lia.
    rewrite repeat_app, exec_app.
    assert (H2 : _recording (exec e (repeat Worker 2) t) = true
                 /\ pc (exec e (repeat Worker 2) t) = PTest
                 /\ pulled (exec e (repeat Worker 2) t) = S (pulled t)).
    { change (exec e (repeat Worker 2) t) with (run_step e (run_step e t)).
      assert (E1 : run_step e t = set_pc PBody t).
      { unfold run_step. now rewrite Hpc, Hf. }
      rewrite E1. unfold run_step, body. simpl.
      destruct (Hdev (pulled t)) as [d ->]. simpl. auto. }
    destruct H2 as (Hf' & Hpc' & Hp').
    destruct (IH _ Hf' Hpc') as [IH1 IH2]. rewrite IH1, IH2, Hp'.
    split; [reflexivity|lia].
Qed.

(** C9. Line 104 sets the flag whatever it was, so a stop requested
    before the loop is entered is lost.  When the setup of [run] succeeds,
    calls of [stop_recording] made before the worker starts and between
    the setup and the assignment leave the flag set and the worker at the
    test of the loop; from there the worker alone never leaves the loop
    by the test: [run] does not return, and with a device that keeps
    delivering the session stays recording and keeps pulling chunks. *)
Theorem C9_early_stop_is_lost (e : env) (ns : namespace) (n m : nat) :
  pc (setup e (new_thread ns)) = PEnter ->
  (forall u, pc u = PEnter -> _recording (run_step e u) = true)
  /\ _recording (exec e (repeat Stop n ++ [Worker] ++ repeat Stop m ++ [Worker])
                   (new_thread ns)) = true
  /\ pc (exec e (repeat Stop n ++ [Worker] ++ repeat Stop m ++ [Worker])
           (new_thread ns)) = PTest
  /\ ((forall i, is_Some (dev_read e i)) ->
      forall j,
        let t' := exec e (repeat Stop n ++ [Worker] ++ repeat Stop m
                          ++ [Worker] ++ repeat Worker j) (new_thread ns) in
        recording_state t' = true /\ finished t' = false
        /\ pulled (exec e (repeat Stop n ++ [Worker] ++ repeat Stop m
                           ++ [Worker] ++ repeat Worker (2 * j))
                     (new_thread ns)) = j).
Proof.
  intros Hsetup.
  assert (Hstart : forall k, Nat.iter k stop_recording (new_thread ns)
                             = new_thread ns).
  { induction k as [|k IH]; [reflexivity|]. simpl. now rewrite IH. }
  assert (Hstops : forall k u, pc (Nat.iter k stop_recording u) = pc u).
  { induction k as [|k IH]; intros u; [reflexivity|]. simpl. apply IH. }
  assert (Hassign : forall u, pc u = PEnter ->
            _recording (run_step e u) = true /\ pc (run_step e u) = PTest).
  { intros u Hu. unfold run_step. rewrite Hu. auto. }
  assert (Hentry :
    _recording (exec e (repeat Stop n ++ [Worker] ++ repeat Stop m ++ [Worker])
                  (new_thread ns)) = true
    /\ pc (exec e (repeat Stop n ++ [Worker] ++ repeat Stop m ++ [Worker])
             (new_thread ns)) = PTest).
  { rewrite !exec_app, !exec_repeat_stop, Hstart.
    change (exec e [Worker] (new_thread ns)) with (setup e (new_thread ns)).
    change (exec e [Worker] ?u) with (run_step e u).
    apply Hassign. now rewrite Hstops. }
  destruct Hentry as [Hf Hp].
  split; [intros u Hu; apply (Hassign u Hu)|].
  split; [exact Hf|]. split; [exact Hp|].
  intros Hdev j t'.
  assert (Hsplit : forall i,
    exec e (repeat Stop n ++ [Worker] ++ repeat Stop m ++ [Worker]
            ++ repeat Worker i) (new_thread ns)
    = exec e (repeat Worker i)
        (exec e (repeat Stop n ++ [Worker] ++ repeat Stop m ++ [Worker])
           (new_thread ns))).
  { intros i. rewrite <- exec_app. f_equal. now rewrite <- !app_assoc. }
  assert (Hrec : recording_state t' = true).
  { unfold t'. rewrite Hsplit. apply exec_workers_recording; [exact Hdev|].
    unfold recording_state, in_loop. now rewrite Hf, Hp. }
  split; [exact Hrec|]. split.
  - destruct (recording_state_inv _ Hrec) as [_ Hl].
    unfold in_loop in Hl. unfold finished. now destruct (pc t').
  - rewrite Hsplit.
    destruct (exec_workers_pulled e _ j Hdev Hf Hp) as [_ ->].
    assert (Hp0 : forall u, pc u = PEnter -> pulled (run_step e u) = pulled u).
    { intros u Hu. unfold run_step. now rewrite Hu. }
    assert (Hpi : forall k u, pulled (Nat.iter k stop_recording u) = pulled u).
    { induction k as [|k IH]; intros u; [reflexivity|]. simpl. apply IH. }
    rewrite !exec_app, !exec_repeat_stop, Hstart.
    change (exec e [Worker] (new_thread ns)) with (setup e (new_thread ns)).
    change (exec e [Worker] ?u) with (run_step e u).
    rewrite Hp0 by now rewrite Hstops. rewrite Hpi.
    assert (Hps : pulled (setup e (new_thread ns)) = 0).
    { unfold setup. repeat case_match; reflexivity. }
    rewrite Hps. reflexivity.
Qed.

(** C9 with two early stops before the start and three before the
    assignment. *)
Lemma C9_early_stop_is_lost_witness :
  _recording (exec steady (repeat Stop 2 ++ [Worker] ++ repeat Stop 3 ++ [Worker])
                (new_thread small)) = true.
Proof.
  refine (proj1 (proj2 (C9_early_stop_is_lost steady small 2 3 _))).
  reflexivity.
Defined.

(** ** Configuration *)

Lemma formats_None s : formats !! s = None <-> s ∉ format_names.
Proof.
  unfold formats. symmetry.
  exact (not_elem_of_list_to_map (M := gmap string)
           [("paFloat32", paFloat32); ("paInt32", paInt32);
            ("paInt24", paInt24); ("paInt16", paInt16); ("paInt8", paInt8);
            ("paUInt8", paUInt8); ("paCustomFormat", paCustomFormat)] s).
Qed.

Lemma convert_error {A} (conv : string -> option A) dflt v :
  convert conv dflt v = UsageError <-> exists s, v = Some s /\ conv s = None.
Proof.
  unfold convert. destruct v as [s|].
  - destruct (conv s) eqn:E; split.
    + discriminate.
    + intros (s' & [= <-] & H). congruence.
    + eauto.
    + reflexivity.
  - split; [discriminate|]. intros (s & H & _). discriminate.
Qed.

Lemma convert_format_error v :
  convert_str_default pa_sample_format "paUInt8" v = UsageError
  <-> exists s, v = Some s /\ s ∉ format_names.
Proof.
  unfold convert_str_default. destruct v as [s|]; simpl.
  - unfold pa_sample_format. destruct (formats !! s) eqn:E; split.
    + discriminate.
    + intros (s' & [= <-] & H). apply formats_None in H. congruence.
    + intros _. exists s. split; [reflexivity|]. now apply formats_None.
    + reflexivity.
  - split; [discriminate|]. intros (s & H & _). discriminate.
Qed.

Lemma parse_args_error py_int a :
  parse_args py_int a = UsageError <->
  convert py_int 8000%Z (cli_rate a) = UsageError
  \/ convert_str_default pa_sample_format "paUInt8" (cli_format a) = UsageError
  \/ convert py_int (-1)%Z (cli_device a) = UsageError
  \/ convert py_int 1%Z (cli_channels a) = UsageError
  \/ convert py_int 1024%Z (cli_chunk a) = UsageError.
Proof.
  unfold parse_args.
  destruct (convert py_int 8000%Z (cli_rate a));
  destruct (convert_str_default pa_sample_format "paUInt8" (cli_format a));
  destruct (convert py_int (-1)%Z (cli_device a));
  destruct (convert py_int 1%Z (cli_channels a));
  destruct (convert py_int 1024%Z (cli_chunk a));
  split; intros H; try reflexivity; try discriminate; auto;
  decompose [or] H; discriminate.
Qed.

(** C4 fails on the code: a rate of 0, a device index of 99, a channel
    count of -1 and a chunk size of 0 configure a thread. *)
Lemma C4_counterexample :
  __init__ decimal_int nonpositive
  = Parsed (new_thread {| output := "output.wav"; rate := 0;
                          pa_format := paUInt8; device := 99;
                          channels := -1; chunk := 0 |}).
Proof. vm_compute. reflexivity. Qed.

(** C4, amended.  [__init__] fails, with the usage error of the parser,
    exactly when the name of the sample format is not one of the seven
    names or the value of one of the integer options is not accepted by
    [int]; values that are not positive and every device index are
    accepted as they are; and a thread that is configured has opened no
    PyAudio connection, no stream and no file. *)
Theorem C4_configuration_errors (py_int : string -> option Z) (a : cli) :
  (__init__ py_int a = UsageError <->
     (exists s, cli_format a = Some s /\ s ∉ format_names)
     \/ (exists s, (cli_rate a = Some s \/ cli_device a = Some s
                    \/ cli_channels a = Some s \/ cli_chunk a = Some s)
                   /\ py_int s = None))
  /\ (forall t, __init__ py_int a = Parsed t ->
        pc t = PSetup /\ pa_instances t = 0 /\ stream t = None /\ wf t = None
        /\ (forall s, cli_rate a = Some s -> py_int s = Some (rate (args t)))
        /\ (forall s, cli_device a = Some s -> py_int s = Some (device (args t)))
        /\ (forall s, cli_channels a = Some s ->
                      py_int s = Some (channels (args t)))
        /\ (forall s, cli_chunk a = Some s -> py_int s = Some (chunk (args t)))).
Proof.
  split.
  - assert (Hinit : __init__ py_int a = UsageError
                    <-> parse_args py_int a = UsageError).
    { unfold __init__. destruct (parse_args py_int a); split; congruence. }
    rewrite Hinit, parse_args_error, convert_format_error, !convert_error.
    split.
    + intros [(s & H & E)|[H|[(s & H & E)|[(s & H & E)|(s & H & E)]]]];
        eauto 10.
    + intros [H|(s & [H|[H|[H|H]]] & E)]; eauto 10.
  - intros t. unfold __init__, parse_args, convert.
    destruct (cli_rate a) as [sr|]; [destruct (py_int sr) eqn:Er|];
    (destruct (convert_str_default pa_sample_format "paUInt8" (cli_format a));
     [|try discriminate]);
    (destruct (cli_device a) as [sd|]; [destruct (py_int sd) eqn:Ed|]);
    (destruct (cli_channels a) as [sc|]; [destruct (py_int sc) eqn:Ec|]);
    (destruct (cli_chunk a) as [sk|]; [destruct (py_int sk) eqn:Ek|]);
    try discriminate; intros [= <-]; simpl;
    repeat split; try discriminate; intros ? [= <-]; assumption.
Qed.

(** ** The device index *)

(** C10. A device index below zero selects the default input device:
    the stream is requested with [input_device_index=None], and that
    request is what the device layer receives; an index that is not
    negative is passed on as it is.  The default of the option is -1, and
    the parser accepts every integer the option is given, negative or
    not, when it accepts the rest of the command line. *)
Theorem C10_negative_device_is_default (py_int : string -> option Z)
    (e : env) (ns : namespace) :
  (device ns < 0)%Z ->
  rq_input_device_index (open_request ns) = None
  /\ (pa_open_ok e (open_request ns) = true ->
      st_request <$> stream (run_step e (new_thread ns))
      = Some (open_request ns))
  /\ (forall ns', (0 <= device ns')%Z ->
        rq_input_device_index (open_request ns') = Some (device ns'))
  /\ (forall a ns', cli_device a = None ->
        parse_args py_int a = Parsed ns' -> device ns' = (-1)%Z)
  /\ (forall a s, py_int s = Some (device ns) ->
        parse_args py_int (set_cli_device None a) <> UsageError ->
        exists ns', parse_args py_int (set_cli_device (Some s) a) = Parsed ns'
                    /\ device ns' = device ns).
Proof.
  intros Hneg. split; [|split; [|split; [|split]]].
  - unfold open_request. simpl.
    destruct (device ns <? 0)%Z eqn:E; [reflexivity|].
    apply Z.ltb_ge in E. lia.
  - intros Hok. unfold run_step. simpl. unfold setup. simpl. rewrite Hok.
    simpl. repeat case_match; reflexivity.
  - intros ns' Hpos. unfold open_request. simpl.
    destruct (device ns' <? 0)%Z eqn:E; [|reflexivity].
    apply Z.ltb_lt in E. lia.
  - intros a ns' Hnone. unfold parse_args. rewrite Hnone. simpl.
    repeat case_match; try discriminate. intros [= <-]. reflexivity.
  - intros a s Hs. unfold parse_args, set_cli_device. simpl. rewrite Hs.
    repeat case_match; try congruence; intros _; eexists; split;
      reflexivity.
Qed.

(** C10 at the default index and at the literal [-7]. *)
Lemma C10_negative_device_is_default_witness :
  rq_input_device_index (open_request defaults) = None
  /\ exists ns', parse_args decimal_int (set_cli_device (Some "-7") no_options)
                 = Parsed ns' /\ device ns' = (-7)%Z.
Proof.
  split.
  - refine (proj1 (C10_negative_device_is_default decimal_int steady
                     defaults _)). reflexivity.
  - vm_compute. eexists. split; reflexivity.
Defined.

End PaRecordProofs.

(* ===================================================================== *)
(** * Properties of make_transcript_files.py *)
(* ===================================================================== *)

Module MakeTranscriptFilesProofs.
Import MakeTranscriptFiles.

Local Open Scope nat_scope.
Local Arguments String.append !_ _ / : simpl nomatch.

(** ** Strings *)

Lemma append_assoc (a b c : string) : (a +:+ b) +:+ c = a +:+ (b +:+ c).
Proof. induction a as [|x a IH]; simpl; [reflexivity|f_equal; exact IH]. Qed.

Lemma append_nil_r (a : string) : a +:+ "" = a.
Proof. induction a as [|x a IH]; simpl; [reflexivity|f_equal; exact IH]. Qed.


Lemma chars_append (a b : string) : chars (a +:+ b) = chars a ++ chars b.
Proof.
  unfold chars.
  induction a as [|x a IH]; simpl; [reflexivity|f_equal; exact IH].
Qed.

Lemma cat_app (l1 l2 : list string) : cat (l1 ++ l2) = cat l1 +:+ cat l2.
Proof.
  unfold cat. induction l1 as [|x l1 IH]; simpl; [reflexivity|].
  now rewrite IH, append_assoc.
Qed.

(** [s.split("#")[0]] is the text before the first ['#']. *)
Lemma split_hash_head (s : string) :
  hd EmptyString (split "#" s) = before_hash s.
Proof.
  induction s as [|c r IH]; simpl; [reflexivity|].
  destruct (Ascii.eqb c "#"); [reflexivity|].
  rewrite <- IH. now destruct (split "#" r).
Qed.

(** ** The loop *)



Lemma write_lookup_eq p s w c :
  fs w !! p = Some (File c) -> fs (write p s w) !! p = Some (File (c +:+ s)).
Proof. intros H. unfold write. simpl. now rewrite lookup_alter_eq, H. Qed.

Lemma write_lookup_ne p q s w : p <> q -> fs (write p s w) !! q = fs w !! q.
Proof. intros H. unfold write. simpl. now rewrite lookup_alter_ne. Qed.

Lemma transcription_line_code base count T :
  "<s> " +:+ T +:+ " </s> (" +:+ (base +:+ "_" +:+ fmt_04d count) +:+ ")"
  +:+ String LF ""
  = transcription_line base (count, T).
Proof. unfold transcription_line. simpl fst. simpl snd. now rewrite !append_assoc. Qed.

Lemma fileids_line_code base count T :
  (base +:+ "_" +:+ fmt_04d count) +:+ String LF ""
  = fileids_line base (count, T).
Proof. unfold fileids_line. simpl fst. now rewrite !append_assoc. Qed.

(** One turn of the loop. *)
Lemma process_lines_cons name f2 f3 line rest count w :
  process_lines name f2 f3 (line :: rest) count w
  = if ignored line then process_lines name f2 f3 rest count w
    else
      match write_error w f2
              (transcription_line name (count, sentence line)) with
      | Some e => write_failed e w
      | None =>
          match write_error w f3 (fileids_line name (count, sentence line)) with
          | Some e =>
              write_failed e
                (write f2 (transcription_line name (count, sentence line)) w)
          | None =>
              process_lines name f2 f3 rest (S count)
                (write f3 (fileids_line name (count, sentence line))
                   (write f2 (transcription_line name (count, sentence line))
                      w))
          end
      end.
Proof.
  change (process_lines name f2 f3 (line :: rest) count w)
    with (if String.eqb (hd "" (split "#" (strip line))) ""
          then process_lines name f2 f3 rest count w
          else
            match write_error w f2
                    ("<s> " +:+ strip (hd "" (split "#" (strip line)))
                     +:+ " </s> (" +:+ (name +:+ "_" +:+ fmt_04d count)
                     +:+ ")" +:+ String LF "") with
            | Some e => write_failed e w
            | None =>
                match write_error w f3
                        ((name +:+ "_" +:+ fmt_04d count) +:+ String LF "") with
                | Some e =>
                    write_failed e
                      (write f2
                         ("<s> " +:+ strip (hd "" (split "#" (strip line)))
                          +:+ " </s> (" +:+ (name +:+ "_" +:+ fmt_04d count)
                          +:+ ")" +:+ String LF "") w)
                | None =>
                    process_lines name f2 f3 rest (S count)
                      (write f3
                         ((name +:+ "_" +:+ fmt_04d count) +:+ String LF "")
                         (write f2
                            ("<s> " +:+ strip (hd "" (split "#" (strip line)))
                             +:+ " </s> ("
                             +:+ (name +:+ "_" +:+ fmt_04d count)
                             +:+ ")" +:+ String LF "") w))
                end
            end).
  rewrite split_hash_head, transcription_line_code,
    (fileids_line_code name count (sentence line)).
  reflexivity.
Qed.

Lemma kept_cons line rest :
  kept (line :: rest) = if ignored line then kept rest else line :: kept rest.
Proof. unfold kept. simpl. now destruct (ignored line). Qed.

(** What the loop leaves in the two files when no write fails, and that
    it touches nothing else. *)
Lemma process_lines_spec name f2 f3 lines :
  f2 <> f3 ->
  forall count w c2 c3,
  fs w !! f2 = Some (File c2) -> fs w !! f3 = Some (File c3) ->
  writes_ok w name f2 f3 (numbered count (map sentence (kept lines))) ->
  exists w',
    process_lines name f2 f3 lines count w = Return tt w'
    /\ fs w' !! f2
       = Some (File (c2 +:+ cat (map (transcription_line name)
                                   (numbered count
                                      (map sentence (kept lines))))))
    /\ fs w' !! f3
       = Some (File (c3 +:+ cat (map (fileids_line name)
                                   (numbered count
                                      (map sentence (kept lines))))))
    /\ (forall q, q <> f2 -> q <> f3 -> fs w' !! q = fs w !! q)
    /\ console w' = console w /\ refused w' = refused w
    /\ open_files w' = open_files w.
Proof.
  intros Hne. induction lines as [|line rest IH];
    intros count w c2 c3 H2 H3 Hok.
  - exists w. simpl. rewrite !append_nil_r. auto 10.
  - rewrite process_lines_cons. rewrite kept_cons in *.
    destruct (ignored line); [now apply IH|].
    simpl map in *. simpl numbered in *.
    inversion Hok as [|? ? [Hw2 Hw3] Hrest]; subst.
    rewrite Hw2, Hw3.
    set (e2 := transcription_line name (count, sentence line)) in *.
    set (e3 := fileids_line name (count, sentence line)) in *.
    assert (L2 : fs (write f3 e3 (write f2 e2 w)) !! f2
                 = Some (File (c2 +:+ e2))).
    { rewrite write_lookup_ne by congruence. now apply write_lookup_eq. }
    assert (L3 : fs (write f3 e3 (write f2 e2 w)) !! f3
                 = Some (File (c3 +:+ e3))).
    { apply write_lookup_eq. now rewrite write_lookup_ne. }
    destruct (IH (S count) _ _ _ L2 L3 Hrest)
      as (w' & Hp & I2 & I3 & Iq & Ic & Ir & Io).
    exists w'. split; [exact Hp|].
    split; [|split; [|split; [|split; [|split]]]].
    + rewrite I2. f_equal. f_equal. now rewrite append_assoc.
    + rewrite I3. f_equal. f_equal. now rewrite append_assoc.
    + intros q Hq2 Hq3. rewrite Iq by assumption.
      rewrite !write_lookup_ne by congruence. reflexivity.
    + rewrite Ic. reflexivity.
    + rewrite Ir. reflexivity.
    + rewrite Io. reflexivity.
Qed.

(** ** The two output files *)

Lemma startswith_append c n a b :
  startswith c a = startswith c b ->
  startswith c (n +:+ a) = startswith c (n +:+ b).
Proof. destruct n; simpl; auto. Qed.

Lemma join_differ d n a b :
  startswith SEP a = startswith SEP b -> a <> b ->
  join d (n +:+ a) <> join d (n +:+ b).
Proof.
  intros Hs Hab. unfold join.
  rewrite (startswith_append SEP n a b Hs).
  destruct (startswith SEP (n +:+ b));
    [|destruct (String.eqb d "" || endswith SEP d)];
    intros H; repeat (apply (inj (String.append _)) in H); contradiction.
Qed.

Lemma out_paths_differ d n :
  out_path d (n +:+ ".transcription") <> out_path d (n +:+ ".fileids").
Proof.
  assert (Hn : n +:+ ".transcription" <> n +:+ ".fileids").
  { intros H. apply (inj (String.append _)) in H. discriminate. }
  unfold out_path. destruct d as [d|]; [|exact Hn].
  destruct (String.eqb d ""); [exact Hn|].
  apply join_differ; [reflexivity|discriminate].
Qed.

Lemma open_file_ok p mode w :
  refused w p = None -> isdir w p = false ->
  open_file p mode w
  = Return p (set_open_files (open_files w ++ [p])
                (set_fs (<[p := File ""]> (fs w)) w)).
Proof. intros Hr Hd. unfold open_file, open_w. now rewrite Hr, Hd. Qed.

Lemma isdir_insert_ne p q n w l :
  p <> q ->
  isdir (set_open_files l (set_fs (<[p := n]> (fs w)) w)) q = isdir w q.
Proof. intros H. unfold isdir. simpl. now rewrite lookup_insert_ne. Qed.

Lemma after_opens_name in_file f2 f3 :
  name (after_opens in_file f2 f3) = name in_file.
Proof.
  unfold after_opens. now destruct (String.eqb _ f2 || String.eqb _ f3).
Qed.


(** When both output files can be opened, the input can be read and no
    write fails, [generate_files] returns and leaves in the two files the
    lines of the sentences read and of their identifiers; no other path
    changes, nothing is printed and no file stays open. *)
Lemma generate_files_spec (in_file : infile) (out_dir : option string)
    (w : world) :
  let base := transcript_name in_file in
  let p2 := out_path out_dir (base +:+ ".transcription") in
  let p3 := out_path out_dir (base +:+ ".fileids") in
  refused w p2 = None -> isdir w p2 = false ->
  refused w p3 = None -> isdir w p3 = false ->
  read_error w (name in_file) = None ->
  writes_ok w base p2 p3 (sentences (after_opens in_file p2 p3)) ->
  exists w',
    generate_files in_file out_dir w = Return tt w'
    /\ fs w' !! p2
       = Some (File (cat (map (transcription_line base)
                            (sentences (after_opens in_file p2 p3)))))
    /\ fs w' !! p3
       = Some (File (cat (map (fileids_line base)
                            (sentences (after_opens in_file p2 p3)))))
    /\ (forall q, q <> p2 -> q <> p3 -> fs w' !! q = fs w !! q)
    /\ console w' = console w /\ open_files w' = [].
Proof.
  intros base p2 p3 Hr2 Hd2 Hr3 Hd3 Hread Hok.
  assert (Hne : p2 <> p3) by apply out_paths_differ.
  unfold generate_files. fold base. fold p2. fold p3.
  set (w0 := set_open_files [name in_file] w).
  rewrite (open_file_ok p2 "w" w0 Hr2 Hd2).
  rewrite open_file_ok; [|exact Hr3|now rewrite isdir_insert_ne].
  set (w3 := set_open_files _ (set_fs _ (set_open_files _ (set_fs _ w0)))).
  change (read_error w3 (name in_file)) with (read_error w (name in_file)).
  rewrite Hread.
  assert (H2 : fs w3 !! p2 = Some (File "")).
  { unfold w3. simpl. rewrite lookup_insert_ne by congruence.
    apply lookup_insert_eq. }
  assert (H3 : fs w3 !! p3 = Some (File "")).
  { unfold w3. simpl. apply lookup_insert_eq. }
  destruct (process_lines_spec base p2 p3
              (readlines (after_opens in_file p2 p3)) Hne 1 w3 _ _
              H2 H3 Hok) as (w' & Hp & I2 & I3 & Iq & Ic & _).
  rewrite Hp. eexists. split; [reflexivity|].
  split; [exact I2|]. split; [exact I3|].
  split; [|split; [exact Ic|reflexivity]].
  intros q Hq2 Hq3.
  change (fs (close_files ?u)) with (fs u).
  rewrite Iq by assumption. unfold w3. simpl.
  rewrite !lookup_insert_ne by congruence. reflexivity.
Qed.

(** ** The count *)





(** ** Lines *)

Lemma keepends_lf_last s : Forall lf_last (keepends s).
Proof.
  induction s as [|c r IH]; simpl; [constructor|].
  destruct (Ascii.eqb_spec c LF) as [->|Hc].
  - constructor; [simpl; auto|exact IH].
  - destruct (keepends r) as [|l ls].
    + constructor; [|constructor]. simpl. split; [congruence|exact I].
    + inversion IH as [|? ? Hl Hls]; subst.
      constructor; [|exact Hls]. simpl. split; [congruence|exact Hl].
Qed.



Lemma chars_lstrip s : chars (lstrip s) ⊆ chars s.
Proof.
  unfold chars. induction s as [|c r IH]; simpl; [done|].
  destruct (isspace c); [|done].
  intros x Hx. apply elem_of_cons. right. now apply IH.
Qed.

Lemma chars_rstrip s : chars (rstrip s) ⊆ chars s.
Proof.
  unfold chars. induction s as [|c r IH]; simpl; [done|].
  destruct (rstrip r) as [|c' r'].
  - destruct (isspace c); simpl.
    + intros x Hx. now apply elem_of_nil in Hx.
    + intros x Hx. apply list_elem_of_singleton in Hx. subst.
      apply elem_of_cons. now left.
  - simpl. intros x Hx. apply elem_of_cons in Hx. apply elem_of_cons.
    destruct Hx as [->|Hx]; [now left|right; now apply IH].
Qed.

Lemma chars_strip s : chars (strip s) ⊆ chars s.
Proof.
  unfold strip. etransitivity; [apply chars_rstrip|apply chars_lstrip].
Qed.

Lemma chars_before_hash s : chars (before_hash s) ⊆ chars s.
Proof.
  unfold chars. induction s as [|c r IH]; simpl; [done|].
  destruct (Ascii.eqb c "#"); simpl.
  - intros x Hx. now apply elem_of_nil in Hx.
  - intros x Hx. apply elem_of_cons in Hx. apply elem_of_cons.
    destruct Hx as [->|Hx]; [now left|right; now apply IH].
Qed.



(** ** The sentences of a file *)




(** ** Ignored lines *)

Lemma lstrip_head line c r : lstrip line = String c r -> isspace c = false.
Proof.
  induction line as [|x l IH]; simpl; [discriminate|].
  destruct (isspace x) eqn:E; [exact IH|].
  intros [= <- <-]. exact E.
Qed.

Lemma rstrip_head c r :
  isspace c = false -> exists r', rstrip (String c r) = String c r'.
Proof.
  intros H. simpl. destruct (rstrip r); rewrite ?H; eauto.
Qed.

Lemma ignored_blank_or_comment line :
  ignored line = true
  <-> lstrip line = "" \/ startswith "#" (lstrip line) = true.
Proof.
  unfold ignored, strip. rewrite String.eqb_eq.
  destruct (lstrip line) as [|c r] eqn:E; simpl.
  - split; auto.
  - destruct (rstrip_head c r (lstrip_head line c r E)) as [r' Hr].
    simpl in Hr. rewrite Hr. simpl.
    destruct (Ascii.eqb c "#"); split; auto; try discriminate.
    intros [H|H]; discriminate.
Qed.

Lemma kept_all_ignored lines :
  Forall (fun l => ignored l = true) lines -> kept lines = [].
Proof.
  induction 1 as [|l ls Hl _ IH]; [reflexivity|].
  now rewrite kept_cons, Hl.
Qed.

(** C7. The loop passes over a line, writing nothing and keeping the
    count, exactly when trimming the line and cutting it at the first
    ['#'] leaves nothing; these are the lines that are blank or whose
    first character after the leading white space is ['#'].  An input of
    such lines only makes [generate_files] return, when the two files can
    be opened and the input can be read, with both files empty and
    nothing printed. *)
Theorem C7_ignored_lines (line : string) :
  ((forall name f2 f3 rest count w,
      process_lines name f2 f3 (line :: rest) count w
      = process_lines name f2 f3 rest count w)
   <-> before_hash (strip line) = "")
  /\ (before_hash (strip line) = ""
      <-> lstrip line = "" \/ startswith "#" (lstrip line) = true)
  /\ (forall in_file out_dir w,
        Forall (fun l => before_hash (strip l) = "") (readlines in_file) ->
        refused w (out_path out_dir
                     (transcript_name in_file +:+ ".transcription")) = None ->
        isdir w (out_path out_dir
                   (transcript_name in_file +:+ ".transcription")) = false ->
        refused w (out_path out_dir (transcript_name in_file +:+ ".fileids"))
          = None ->
        isdir w (out_path out_dir (transcript_name in_file +:+ ".fileids"))
          = false ->
        read_error w (name in_file) = None ->
        exists w',
          generate_files in_file out_dir w = Return tt w'
          /\ fs w' !! (out_path out_dir
                         (transcript_name in_file +:+ ".transcription"))
             = Some (File "")
          /\ fs w' !! (out_path out_dir
                         (transcript_name in_file +:+ ".fileids"))
             = Some (File "")
          /\ console w' = console w).
Proof.
  assert (Hig : forall l, ignored l = true <-> before_hash (strip l) = "").
  { intros l. unfold ignored. apply String.eqb_eq. }
  split; [|split].
  - rewrite <- Hig. split.
    + intros Hskip. destruct (ignored line) eqn:E; [reflexivity|].
      specialize (Hskip "" "a" "b" [] 0
                    {| fs := {[ "a" := File "" ]}; refused := fun _ => None;
                       console := []; open_files := [];
                       write_error := fun _ _ => None;
                       read_error := fun _ => None |}).
      rewrite process_lines_cons, E in Hskip.
      cbn [write_error process_lines] in Hskip.
      apply (f_equal (fun o : outcome unit =>
                        match o with
                        | Return _ u => fs u !! "a"
                        | Exit _ u => fs u !! "a"
                        end)) in Hskip.
      rewrite write_lookup_ne in Hskip by discriminate.
      rewrite (write_lookup_eq "a" _ _ "") in Hskip
        by (simpl; apply lookup_singleton_eq).
      simpl in Hskip. rewrite lookup_singleton_eq in Hskip. discriminate.
    + intros E name f2 f3 rest count w.
      now rewrite process_lines_cons, E.
  - rewrite <- Hig. apply ignored_blank_or_comment.
  - intros in_file out_dir w Hall Hr2 Hd2 Hr3 Hd3 Hread.
    assert (Hs : forall f2 f3, sentences (after_opens in_file f2 f3) = []).
    { intros f2 f3. unfold sentences, after_opens.
      destruct (String.eqb _ f2 || String.eqb _ f3); [reflexivity|].
      rewrite kept_all_ignored; [reflexivity|].
      eapply Forall_impl; [exact Hall|]. intros l Hl. now apply Hig. }
    pose proof (generate_files_spec in_file out_dir w Hr2 Hd2 Hr3 Hd3 Hread)
      as Hspec.
    cbv zeta in Hspec. rewrite Hs in Hspec.
    destruct Hspec as (w' & Hg & H2 & H3 & _ & Hc & _); [constructor|].
    exists w'. auto.
Qed.

(** C7 at an input of two comments and two blank lines. *)
Lemma C7_ignored_lines_witness :
  exists w',
    generate_files remarks None empty_world = Return tt w'
    /\ fs w' !! "remarks.transcription" = Some (File "")
    /\ fs w' !! "remarks.fileids" = Some (File "")
    /\ console w' = [].
Proof.
  refine (proj2 (proj2 (C7_ignored_lines "# one")) remarks None empty_world
            _ _ _ _ _ _); try reflexivity.
  vm_compute. repeat constructor.
Defined.

(** ** The output directory *)

















End MakeTranscriptFilesProofs.

(* ===================================================================== *)
(** * Further properties of pa_record.py *)
(* ===================================================================== *)

Module PaRecordMore.
Import PaRecord PaRecordProofs.

Local Open Scope nat_scope.

(** ** After [run] has returned *)

Lemma flag_after_loop e t :
  reachable e t ->
  match pc t with PFinal | PDone => _recording t = false | _ => True end.
Proof.
  revert t. apply reachable_ind; [intros ns; exact I|].
  intros t ev IH. destruct ev; simpl step.
  - simpl. destruct (pc t); auto.
  - unfold run_step. destruct (pc t) eqn:Hpc.
    + unfold setup. repeat case_match; simpl in *; congruence || exact I.
    + simpl. exact I.
    + destruct (_recording t) eqn:Hf; simpl; auto.
    + unfold body. destruct (dev_read e (pulled t)); simpl; exact I.
    + simpl. exact IH.
    + rewrite Hpc. exact IH.
    + rewrite Hpc. exact I.
Qed.

(** X1. Once [run] has returned the thread object never changes again:
    neither further calls of [stop_recording] nor steps of the worker have
    any effect, so a session cannot be restarted. *)
Theorem X1_returned_is_final (e : env) (t : thread) (sch : list event) :
  reachable e t -> finished t = true -> exec e sch t = t.
Proof.
  intros Hreach Hfin. unfold finished in Hfin.
  destruct (pc t) eqn:Hpc; try discriminate.
  pose proof (flag_after_loop e t Hreach) as Hflag. rewrite Hpc in Hflag.
  induction sch as [|ev sch IH]; [reflexivity|].
  rewrite exec_cons. destruct ev; simpl step.
  - rewrite stop_recording_clear by exact Hflag. exact IH.
  - unfold run_step. rewrite Hpc. exact IH.
Qed.

(** X1 at a session that was stopped and has returned. *)
Lemma X1_returned_is_final_witness :
  exec steady [Stop; Worker; Stop]
    (exec steady [Worker; Worker; Worker; Stop; Worker; Worker; Worker]
       (new_thread small))
  = exec steady [Worker; Worker; Worker; Stop; Worker; Worker; Worker]
      (new_thread small).
Proof.
  refine (X1_returned_is_final steady _ [Stop; Worker; Stop] _ _).
  - exists small, [Worker; Worker; Worker; Stop; Worker; Worker; Worker].
    reflexivity.
  - reflexivity.
Defined.

(** ** What is written stays written *)

Lemma pulled_step e t ev : pulled t <= pulled (step e t ev).
Proof.
  destruct ev; simpl; [lia|]. unfold run_step.
  destruct (pc t); simpl; try lia.
  - unfold setup. repeat case_match; simpl; lia.
  - destruct (_recording t); simpl; lia.
  - unfold body. destruct (dev_read e (pulled t)); simpl; lia.
Qed.

Lemma pulled_exec e sch t : pulled t <= pulled (exec e sch t).
Proof.
  revert t. induction sch as [|ev sch IH]; intros t; [simpl; lia|].
  rewrite exec_cons. etransitivity; [apply (pulled_step e t ev)|apply IH].
Qed.

Lemma chunks_upto_add e a n :
  chunks_upto e (a + n) = chunks_upto e a ++ chunks_from e a n.
Proof.
  unfold chunks_upto, chunks_from. now rewrite seq_app, map_app.
Qed.

(** X2. Frames that were written are never changed or removed: in every
    continuation of a reachable state the data of the file are the data
    it had, followed by the chunks of the reads made since then, in
    order. *)
Theorem X2_data_only_grows (e : env) (t : thread) (sch : list event) :
  reachable e t ->
  pulled t <= pulled (exec e sch t)
  /\ data (exec e sch t)
     = data t
       ++ concat (chunks_from e (pulled t)
                    (pulled (exec e sch t) - pulled t)).
Proof.
  intros Hreach. pose proof (pulled_exec e sch t) as Hle.
  split; [exact Hle|].
  destruct (reachable_inv e t Hreach) as (_ & _ & Hd & _).
  destruct (reachable_inv e _ (reachable_exec e t sch Hreach))
    as (_ & _ & Hd' & _).
  rewrite Hd', Hd.
  replace (pulled (exec e sch t))
    with (pulled t + (pulled (exec e sch t) - pulled t)) at 1 by lia.
  now rewrite chunks_upto_add, concat_app.
Qed.

(** X2 from the first chunk to the third. *)
Lemma X2_data_only_grows_witness :
  data (exec steady (repeat Worker 4) (exec steady (repeat Worker 4)
                                         (new_thread small)))
  = data (exec steady (repeat Worker 4) (new_thread small))
    ++ concat (chunks_from steady 1 2).
Proof.
  refine (proj2 (X2_data_only_grows steady
                   (exec steady (repeat Worker 4) (new_thread small))
                   (repeat Worker 4) _)).
  exists small, (repeat Worker 4). reflexivity.
Defined.

(** ** The header *)

Lemma header_inv_step e t ev : header_inv t -> header_inv (step e t ev).
Proof.
  intros [Hs Hw]. destruct ev; simpl step; [split; [exact Hs|exact Hw]|].
  unfold run_step. destruct (pc t) eqn:Hpc.
  - assert (Hdel : forall w, wave_del <$> wf t = Some w ->
                             wf_path w = output (args t)).
    { intros w Hw'. destruct (wf t) as [w0|]; [|discriminate].
      injection Hw' as <-. simpl. now apply Hw. }
    unfold setup, header_inv, header_of.
    destruct (negb (pa_open_ok e _)); simpl; [split; assumption|].
    destruct (negb (wave_open_ok e _)); simpl.
    { split; [intros st [= <-]; reflexivity|assumption]. }
    destruct (channels (args t) <? 1)%Z; simpl.
    { split; [intros st [= <-]; reflexivity|intros w [= <-]; reflexivity]. }
    destruct (get_sample_size (pa_format (args t))) as [wd|] eqn:Hsz; simpl.
    2: { split; [intros st [= <-]; reflexivity|intros w [= <-]; reflexivity]. }
    destruct ((wd <? 1)%Z || (4 <? wd)%Z); simpl.
    { split; [intros st [= <-]; reflexivity|intros w [= <-]; reflexivity]. }
    destruct (rate (args t) <=? 0)%Z; simpl.
    { split; [intros st [= <-]; reflexivity|intros w [= <-]; reflexivity]. }
    split; [intros st [= <-]; reflexivity|].
    eexists. split; [reflexivity|]. simpl. auto.
  - split; [exact Hs|exact Hw].
  - destruct (_recording t); split; simpl; assumption.
  - unfold body. destruct (dev_read e (pulled t)) as [d|]; simpl.
    + split; [exact Hs|]. simpl. destruct Hw as (w & Hw & Hh).
      exists (writeframes d w). rewrite Hw. split; [reflexivity|exact Hh].
    + split; [exact Hs|]. simpl. destruct Hw as (w & Hw & Hh).
      intros w' Hw'. rewrite Hw in Hw'. injection Hw' as <-. apply Hh.
  - unfold finalize. split; simpl.
    + intros st Hst. destruct (stream t) as [s0|]; [|discriminate].
      injection Hst as <-. simpl. now apply Hs.
    + destruct Hw as (w & Hw & Hh). rewrite Hw. simpl.
      eexists. split; [reflexivity|exact Hh].
  - unfold header_inv. rewrite Hpc. split; assumption.
  - unfold header_inv. rewrite Hpc. split; assumption.
Qed.

(** X3. The stream is requested and the wave file is set up with the
    arguments of the thread and nothing else: in every reachable state an
    open stream was requested with [open_request] of the arguments, and
    once the setup is through the file has the output path, the channel
    count, the sample width of the format and the rate of the arguments,
    until [run] has returned. *)
Theorem X3_header_follows_arguments (e : env) (t : thread) :
  reachable e t ->
  (forall st, stream t = Some st -> st_request st = open_request (args t))
  /\ (pc t = PEnter \/ in_loop t = true \/ pc t = PFinal \/ pc t = PDone ->
      exists w, wf t = Some w /\ wf_path w = output (args t)
                /\ nchannels w = channels (args t)
                /\ Some (sampwidth w) = get_sample_size (pa_format (args t))
                /\ framerate w = rate (args t)).
Proof.
  intros Hreach.
  assert (H : header_inv t).
  { revert t Hreach. apply reachable_ind.
    - intros ns. split; simpl; intros; discriminate.
    - intros t ev. apply header_inv_step. }
  destruct H as [Hs Hw]. split; [exact Hs|].
  unfold in_loop. intros Hpos.
  destruct (pc t) eqn:Hpc; try exact Hw;
    destruct Hpos as [H|[H|[H|H]]]; discriminate.
Qed.

(** X3 in the loop of a session with the small arguments. *)
Lemma X3_header_follows_arguments_witness :
  exists w, wf (exec steady (repeat Worker 4) (new_thread small)) = Some w
            /\ wf_path w = "output.wav" /\ nchannels w = 1%Z
            /\ Some (sampwidth w) = Some 1%Z /\ framerate w = 8000%Z.
Proof.
  refine (proj2 (X3_header_follows_arguments steady
                   (exec steady (repeat Worker 4) (new_thread small)) _) _).
  - exists small, (repeat Worker 4). reflexivity.
  - right. left. reflexivity.
Defined.

(** ** A setup that fails *)

Lemma setup_set_recording e b t :
  setup e (set_recording b t) = set_recording b (setup e t).
Proof.
  unfold setup. cbn [args set_recording].
  destruct (negb (pa_open_ok e _)); [reflexivity|].
  destruct (negb (wave_open_ok e _)); [reflexivity|].
  destruct (channels _ <? 1)%Z; [reflexivity|].
  destruct (get_sample_size _); [|reflexivity].
  destruct ((_ <? 1)%Z || _); [reflexivity|].
  destruct (rate _ <=? 0)%Z; reflexivity.
Qed.

Lemma exec_raised_flag e sch u x :
  pc u = PRaised x -> exists b, exec e sch u = set_recording b u.
Proof.
  revert u. induction sch as [|ev sch IH]; intros u Hpc.
  - exists (_recording u). now destruct u.
  - rewrite exec_cons. destruct ev; simpl step.
    + destruct (IH (stop_recording u) Hpc) as [b Hb]. exists b. now rewrite Hb.
    + unfold run_step. rewrite Hpc. now apply IH.
Qed.

Lemma exec_setup_fails e sch t x :
  pc t = PSetup -> pc (setup e t) = PRaised x -> In Worker sch ->
  exists b, exec e sch t = set_recording b (setup e t).
Proof.
  revert t. induction sch as [|ev sch IH]; intros t Hpc Hfail Hin; [easy|].
  rewrite exec_cons. destruct ev; simpl step.
  - destruct Hin as [Hin|Hin]; [discriminate|].
    destruct (IH (stop_recording t) Hpc) as [b Hb]; [|exact Hin|].
    + unfold stop_recording. now rewrite setup_set_recording.
    + exists b. rewrite Hb. unfold stop_recording.
      now rewrite setup_set_recording.
  - unfold run_step. rewrite Hpc. now apply (exec_raised_flag e sch _ x).
Qed.

(** X4. [run] has no handler around its setup.  When the stream cannot
    be opened, [run] is left by the exception with the PyAudio connection
    made and never terminated, and the output file is not opened; when the
    stream opens and the output file cannot be opened, the stream is left
    open as well, neither stopped nor closed.  Nothing that follows
    changes this. *)
Theorem X4_failed_setup_releases_nothing (e : env) (ns : namespace)
    (sch : list event) :
  In Worker sch ->
  (pa_open_ok e (open_request ns) = false ->
     pc (exec e sch (new_thread ns)) = PRaised IOError
     /\ stream (exec e sch (new_thread ns)) = None
     /\ wf (exec e sch (new_thread ns)) = None
     /\ pa_instances (exec e sch (new_thread ns)) = 1
     /\ pa_terminated (exec e sch (new_thread ns)) = 0)
  /\ (pa_open_ok e (open_request ns) = true ->
      wave_open_ok e (output ns) = false ->
      pc (exec e sch (new_thread ns)) = PRaised IOError
      /\ stream (exec e sch (new_thread ns))
         = Some {| st_request := open_request ns; st_stopped := 0;
                   st_closed := 0 |}
      /\ wf (exec e sch (new_thread ns)) = None
      /\ pa_instances (exec e sch (new_thread ns)) = 1
      /\ pa_terminated (exec e sch (new_thread ns)) = 0).
Proof.
  intros Hin. split.
  - intros Hno.
    assert (Hs : setup e (new_thread ns)
                 = set_pc (PRaised IOError)
                     (set_locals 1 None None (new_thread ns))).
    { unfold setup. simpl. now rewrite Hno. }
    destruct (exec_setup_fails e sch (new_thread ns) IOError eq_refl) as [b Hb];
      [now rewrite Hs|exact Hin|].
    rewrite Hb, Hs. simpl. auto.
  - intros Hok Hno.
    assert (Hs : setup e (new_thread ns)
                 = set_pc (PRaised IOError)
                     (set_locals 1
                        (Some {| st_request := open_request ns;
                                 st_stopped := 0; st_closed := 0 |})
                        None (new_thread ns))).
    { unfold setup. simpl. now rewrite Hok, Hno. }
    destruct (exec_setup_fails e sch (new_thread ns) IOError eq_refl) as [b Hb];
      [now rewrite Hs|exact Hin|].
    rewrite Hb, Hs. simpl. auto.
Qed.

(** X4 with a device that cannot be opened. *)
Lemma X4_failed_setup_releases_nothing_witness :
  pa_terminated
    (exec {| pa_open_ok := fun _ => false; wave_open_ok := fun _ => true;
             dev_read := fun _ => None |}
       [Stop; Worker; Worker; Stop] (new_thread small)) = 0.
Proof.
  refine (proj2 (proj2 (proj2 (proj2
    (proj1 (X4_failed_setup_releases_nothing
              {| pa_open_ok := fun _ => false; wave_open_ok := fun _ => true;
                 dev_read := fun _ => None |}
              small [Stop; Worker; Worker; Stop] _) _))))).
  - simpl. auto.
  - reflexivity.
Defined.

(** ** [record] *)

Lemma enter_loop e ns :
  pc (setup e (new_thread ns)) = PEnter ->
  _recording (exec e (repeat Worker 2) (new_thread ns)) = true
  /\ pc (exec e (repeat Worker 2) (new_thread ns)) = PTest
  /\ pulled (exec e (repeat Worker 2) (new_thread ns)) = 0.
Proof.
  intros Hs.
  change (exec e (repeat Worker 2) (new_thread ns))
    with (run_step e (setup e (new_thread ns))).
  unfold run_step. rewrite Hs. simpl. repeat split.
  unfold setup. repeat case_match; reflexivity.
Qed.

(** Where the worker stands after [j] steps in the loop. *)
Lemma loop_position e t j :
  (forall i, is_Some (dev_read e i)) ->
  _recording t = true -> pc t = PTest ->
  exists k,
    _recording (exec e (repeat Worker j) t) = true
    /\ pulled (exec e (repeat Worker j) t) = pulled t + k
    /\ ((pc (exec e (repeat Worker j) t) = PTest /\ j = 2 * k)
        \/ (pc (exec e (repeat Worker j) t) = PBody /\ j = 2 * k + 1)).
Proof.
  intros Hdev Hf Hpc.
  assert (Hrec : forall i, _recording (exec e (repeat Worker i) t) = true).
  { intros i. apply recording_state_inv.
    apply exec_workers_recording; [exact Hdev|].
    unfold recording_state, in_loop. now rewrite Hf, Hpc. }
  destruct (Nat.Even_or_Odd j) as [[k ->]|[k ->]]; exists k.
  - destruct (exec_workers_pulled e t k Hdev Hf Hpc) as [H1 H2]. auto.
  - destruct (exec_workers_pulled e t k Hdev Hf Hpc) as [H1 H2].
    split; [apply Hrec|].
    rewrite repeat_app, exec_app.
    change (exec e (repeat Worker 1) ?u) with (run_step e u).
    unfold run_step. rewrite H1, (Hrec (2 * k)). simpl. auto.
Qed.

(** The last steps of the worker once the flag is cleared. *)
Lemma drain_pulled e t k :
  _recording t = false -> 3 <= k ->
  (pc t = PTest ->
     pc (exec e (repeat Worker k) t) = PDone
     /\ pulled (exec e (repeat Worker k) t) = pulled t)
  /\ (pc t = PBody -> is_Some (dev_read e (pulled t)) ->
      pc (exec e (repeat Worker k) t) = PDone
      /\ pulled (exec e (repeat Worker k) t) = S (pulled t)).
Proof.
  intros Hf Hk. replace k with (3 + (k - 3)) by lia.
  rewrite repeat_app, exec_app.
  change (exec e (repeat Worker 3) t)
    with (run_step e (run_step e (run_step e t))).
  split.
  - intros Hpc.
    assert (E : run_step e (run_step e (run_step e t)) = finalize t).
    { unfold run_step at 3. rewrite Hpc, Hf. reflexivity. }
    rewrite E, exec_workers_done by reflexivity. auto.
  - intros Hpc [d Hd].
    assert (U : pc (run_step e t) = PTest /\ _recording (run_step e t) = false
                /\ pulled (run_step e t) = S (pulled t)).
    { unfold run_step. rewrite Hpc. unfold body. rewrite Hd. simpl. auto. }
    destruct U as (U1 & U2 & U3).
    assert (E : run_step e (run_step e (run_step e t))
                = finalize (set_pc PFinal (run_step e t))).
    { unfold run_step at 2. rewrite U1, U2. reflexivity. }
    rewrite E, exec_workers_done by reflexivity. simpl. auto.
Qed.

(** X5. [record] ends a session cleanly when the wait is over after the
    worker has entered the loop.  With arguments that parse, a setup that
    succeeds and a device that keeps delivering, a line read or a ctrl+c
    after two or more steps of the worker, followed by three or more
    steps, leaves [run] returned, the stream stopped and closed once, the
    file closed once and the connection terminated once; the file holds
    the chunks pulled, whole and in order, and their number is half the
    number of steps the worker took in the loop, a chunk in flight
    counting. *)
Theorem X5_record_completes (py_int : string -> option Z) (e : env) (a : cli)
    (ns : namespace) (before : nat) (fg : foreground) (after : nat) :
  parse_args py_int a = Parsed ns ->
  pc (setup e (new_thread ns)) = PEnter ->
  (forall i, is_Some (dev_read e i)) ->
  fg <> EOFError -> 2 <= before -> 3 <= after ->
  exists t,
    record py_int e a before fg after = Parsed t
    /\ finished t = true /\ args t = ns
    /\ stream_stops t = 1 /\ stream_closes t = 1 /\ file_closes t = 1
    /\ pa_terminated t = 1
    /\ data t = concat (chunks_upto e (pulled t))
    /\ (2 * pulled t = before - 2 \/ 2 * pulled t = before - 1).
Proof.
  intros Hparse Hsetup Hdev Hfg Hb Ha.
  unfold record, __init__. rewrite Hparse.
  assert (Hw : after_wait fg = [Stop]).
  { destruct fg; try reflexivity. now destruct Hfg. }
  rewrite Hw. eexists. split; [reflexivity|].
  set (t := exec e _ (new_thread ns)).
  assert (Hreach : reachable e t) by (eexists _, _; reflexivity).
  destruct (enter_loop e ns Hsetup) as (Hf2 & Hp2 & Hn2).
  destruct (loop_position e _ (before - 2) Hdev Hf2 Hp2)
    as (k & Hfk & Hnk & Hpos).
  assert (Ht : t = exec e (repeat Worker after)
                     (stop_recording
                        (exec e (repeat Worker (before - 2))
                           (exec e (repeat Worker 2) (new_thread ns))))).
  { unfold t. replace before with (2 + (before - 2)) at 1 by lia.
    rewrite repeat_app, !exec_app. reflexivity. }
  set (u := exec e (repeat Worker (before - 2))
              (exec e (repeat Worker 2) (new_thread ns))) in *.
  assert (Hend : pc t = PDone
                 /\ (2 * pulled t = before - 2 \/ 2 * pulled t = before - 1)).
  { rewrite Ht.
    destruct (drain_pulled e (stop_recording u) after eq_refl Ha) as [D1 D2].
    rewrite Hn2 in Hnk. simpl in Hnk.
    destruct Hpos as [[Hpc Hj]|[Hpc Hj]].
    - destruct (D1 Hpc) as [-> ->]. simpl. split; [reflexivity|]. lia.
    - destruct (D2 Hpc (Hdev _)) as [-> ->]. simpl.
      split; [reflexivity|]. lia. }
  destruct Hend as [Hdone Hcount].
  destruct (reachable_inv e t Hreach) as (Hc & _ & Hd & _).
  unfold closes_consistent, finished, file_closes_at in *.
  rewrite Hdone in *.
  destruct Hc as (C1 & C2 & C3 & C4).
  split; [reflexivity|]. split; [apply args_exec|].
  auto 10.
Qed.

(** X5 with ctrl+c while the third chunk is in flight. *)
Lemma X5_record_completes_witness :
  exists t,
    record decimal_int steady (set_cli_device (Some "-7") no_options)
      7 KeyboardInterrupt 3 = Parsed t
    /\ finished t = true.
Proof.
  destruct (X5_record_completes decimal_int steady
              (set_cli_device (Some "-7") no_options)
              {| output := "output.wav"; rate := 8000; pa_format := paUInt8;
                 device := -7; channels := 1; chunk := 1024 |}
              7 KeyboardInterrupt 3)
    as (t & H1 & H2 & _).
  - reflexivity.
  - reflexivity.
  - intros i. simpl. eauto.
  - discriminate.
  - lia.
  - lia.
  - exists t. split; assumption.
Defined.

Lemma workers_keep_looping e ns n :
  match pc (exec e (repeat Worker n) (new_thread ns)) with
  | PTest | PBody => _recording (exec e (repeat Worker n) (new_thread ns)) = true
  | PFinal | PDone => False
  | _ => True
  end.
Proof.
  induction n as [|n IH]; [exact I|].
  replace (S n) with (n + 1) by lia. rewrite repeat_app, exec_app.
  change (exec e (repeat Worker 1) ?u) with (run_step e u).
  set (u := exec e (repeat Worker n) (new_thread ns)) in *.
  unfold run_step. destruct (pc u) eqn:Hpc; try contradiction.
  - unfold setup.
    destruct (negb (pa_open_ok e _)); [exact I|].
    destruct (negb (wave_open_ok e _)); [exact I|].
    destruct (channels _ <? 1)%Z; [exact I|].
    destruct (get_sample_size _); [|exact I].
    destruct ((_ <? 1)%Z || _); [exact I|].
    destruct (rate _ <=? 0)%Z; exact I.
  - reflexivity.
  - rewrite IH. simpl. exact IH.
  - unfold body. destruct (dev_read e (pulled u)); simpl; [exact IH|exact I].
  - rewrite Hpc. exact I.
Qed.

(** X6. [record] calls [stop_recording] only when the wait ends by a
    line or by ctrl+c.  When the read of the main thread raises anything
    else, as at the end of the input, no stop is requested: however many
    steps the worker takes, [run] does not return, the stream and the
    connection are not closed, and the file is not closed as long as no
    exception has left [run]; with a setup that succeeds and a device that
    keeps delivering, the session goes on recording with the file open. *)
Theorem X6_record_end_of_input (py_int : string -> option Z) (e : env)
    (a : cli) (ns : namespace) (before after : nat) :
  parse_args py_int a = Parsed ns ->
  exists t,
    record py_int e a before EOFError after = Parsed t
    /\ finished t = false /\ pc t <> PFinal
    /\ stream_stops t = 0 /\ stream_closes t = 0
    /\ ((forall x, pc t <> PRaised x) -> file_closes t = 0)
    /\ pa_terminated t = 0
    /\ (pc (setup e (new_thread ns)) = PEnter ->
        (forall i, is_Some (dev_read e i)) -> 2 <= before + after ->
        recording_state t = true /\ file_closes t = 0
        /\ (2 * pulled t = before + after - 2
            \/ 2 * pulled t + 1 = before + after - 2)).
Proof.
  intros Hparse. unfold record, __init__. rewrite Hparse.
  eexists. split; [reflexivity|]. simpl after_wait.
  rewrite app_nil_l, <- repeat_app.
  set (t := exec e _ (new_thread ns)).
  assert (Hreach : reachable e t) by (eexists _, _; reflexivity).
  pose proof (workers_keep_looping e ns (before + after)) as Hloop.
  fold t in Hloop.
  assert (Hnf : finished t = false /\ pc t <> PFinal).
  { unfold finished. destruct (pc t); try contradiction; split; congruence. }
  destruct Hnf as [Hfin Hnfinal].
  destruct (reachable_inv e t Hreach) as (Hc & _ & _ & _).
  unfold closes_consistent in Hc. rewrite Hfin in Hc.
  destruct Hc as (C1 & C2 & C3 & C4).
  assert (C3' : (forall x, pc t <> PRaised x) -> file_closes t = 0).
  { intros Hnr. rewrite C3. unfold file_closes_at.
    destruct (pc t) eqn:Hpc; try reflexivity; try contradiction.
    exfalso. now apply (Hnr e0). }
  split; [exact Hfin|]. split; [exact Hnfinal|].
  split; [exact C1|]. split; [exact C2|]. split; [exact C3'|].
  split; [exact C4|].
  intros Hsetup Hdev Hn.
  destruct (enter_loop e ns Hsetup) as (Hf2 & Hp2 & Hn2).
  destruct (loop_position e _ (before + after - 2) Hdev Hf2 Hp2)
    as (k & Hfk & Hnk & Hpos).
  assert (Ht : t = exec e (repeat Worker (before + after - 2))
                     (exec e (repeat Worker 2) (new_thread ns))).
  { unfold t. replace (before + after) with (2 + (before + after - 2)) at 1
      by lia. now rewrite repeat_app, exec_app. }
  rewrite <- Ht in *. rewrite Hn2 in Hnk. simpl in Hnk.
  assert (Hnr : forall x, pc t <> PRaised x).
  { intros x. destruct Hpos as [[-> _]|[-> _]]; discriminate. }
  unfold recording_state, in_loop. rewrite Hfk.
  split; [destruct Hpos as [[-> _]|[-> _]]; reflexivity|].
  split; [now apply C3'|]. destruct Hpos as [[_ Hj]|[_ Hj]]; lia.
Qed.

(** X6 with the defaults and a device that keeps delivering. *)
Lemma X6_record_end_of_input_witness :
  exists t,
    record decimal_int steady no_options 3 EOFError 4 = Parsed t
    /\ finished t = false.
Proof.
  destruct (X6_record_end_of_input decimal_int steady no_options defaults 3 4)
    as (t & H1 & H2 & _).
  - reflexivity.
  - exists t. split; assumption.
Defined.

End PaRecordMore.

(* ===================================================================== *)
(** * Further properties of make_transcript_files.py *)
(* ===================================================================== *)

Module MakeTranscriptFilesMore.
Import MakeTranscriptFiles MakeTranscriptFilesProofs.

Local Open Scope nat_scope.
Local Arguments String.append !_ _ / : simpl nomatch.

(** ** Reading the lines *)

Lemma cat_keepends s : cat (keepends s) = s.
Proof.
  unfold cat. induction s as [|c r IH]; [reflexivity|].
  simpl keepends. destruct (Ascii.eqb c LF).
  - simpl. now rewrite IH.
  - destruct (keepends r) as [|l ls]; simpl in *.
    + now rewrite <- IH.
    + now rewrite <- IH.
Qed.

Lemma keepends_nonempty s : Forall (fun l => l <> "") (keepends s).
Proof.
  induction s as [|c r IH]; simpl; [constructor|].
  destruct (Ascii.eqb c LF).
  - constructor; [discriminate|exact IH].
  - destruct (keepends r) as [|l ls].
    + constructor; [discriminate|constructor].
    + inversion IH; subst. constructor; [discriminate|assumption].
Qed.

Lemma keepends_chars s : Forall (fun l => chars l ⊆ chars s) (keepends s).
Proof.
  unfold chars. induction s as [|c r IH]; simpl; [constructor|].
  assert (Hmono : Forall (fun l => list_ascii_of_string l
                                   ⊆ c :: list_ascii_of_string r)
                         (keepends r)).
  { eapply Forall_impl; [exact IH|]. intros x Hx y Hy.
    apply elem_of_cons. right. now apply Hx. }
  destruct (Ascii.eqb c LF).
  - constructor; [|exact Hmono]. simpl. intros y Hy.
    apply list_elem_of_singleton in Hy. subst y. apply elem_of_cons. now left.
  - destruct (keepends r) as [|l ls].
    + constructor; [|constructor]. simpl. intros y Hy.
      apply list_elem_of_singleton in Hy. subst y.
      apply elem_of_cons. now left.
    + inversion IH as [|? ? Hl Hls]; subst.
      inversion Hmono as [|? ? _ Hls']; subst.
      constructor; [|exact Hls']. simpl. intros y Hy.
      apply elem_of_cons in Hy. apply elem_of_cons.
      destruct Hy as [->|Hy]; [now left|right; now apply Hl].
Qed.

Lemma translate_newlines_no_cr s : CR ∉ chars (translate_newlines s).
Proof.
  unfold chars. induction s as [|c r IH]; simpl; [apply not_elem_of_nil|].
  destruct (Ascii.eqb_spec c CR) as [->|Hc].
  - destruct r as [|c' r'].
    + simpl. intros H. apply list_elem_of_singleton in H. discriminate.
    + destruct (Ascii.eqb_spec c' LF) as [->|Hc'].
      * simpl in IH. exact IH.
      * simpl. intros H. apply elem_of_cons in H.
        destruct H as [H|H]; [discriminate|]. now apply IH.
  - simpl. intros H. apply elem_of_cons in H.
    destruct H as [H|H]; [congruence|]. now apply IH.
Qed.

Lemma translate_newlines_id s : CR ∉ chars s -> translate_newlines s = s.
Proof.
  unfold chars. induction s as [|c r IH]; simpl; [reflexivity|].
  intros H. destruct (Ascii.eqb_spec c CR) as [->|Hc].
  - exfalso. apply H. apply elem_of_cons. now left.
  - f_equal. apply IH. intros Hin. apply H. apply elem_of_cons. now right.
Qed.

(** X7. [readlines] loses nothing: the lines, one after the other, are
    the text of the file with its line ends read as line feeds, and the
    text as it is when it has no carriage return.  No line is empty, none
    has a carriage return, and a line feed is the last character of the
    line it is in. *)
Theorem X7_readlines_round_trip (f : infile) :
  cat (readlines f) = translate_newlines (content f)
  /\ (CR ∉ chars (content f) -> cat (readlines f) = content f)
  /\ Forall (fun l => l <> "" /\ (CR ∉ chars l) /\ lf_last l) (readlines f).
Proof.
  unfold readlines. split; [apply cat_keepends|]. split.
  - intros H. rewrite cat_keepends. now apply translate_newlines_id.
  - pose proof (keepends_nonempty (translate_newlines (content f))) as H1.
    pose proof (keepends_chars (translate_newlines (content f))) as H2.
    pose proof (keepends_lf_last (translate_newlines (content f))) as H3.
    rewrite Forall_forall in *. intros l Hl. split; [now apply H1|].
    split; [|now apply H3].
    intros Hin. apply (translate_newlines_no_cr (content f)).
    now apply (H2 l Hl).
Qed.

(** X7 at a text without carriage return. *)
Lemma X7_readlines_round_trip_witness : cat (readlines demo) = content demo.
Proof.
  refine (proj1 (proj2 (X7_readlines_round_trip demo)) _).
  vm_compute. intros H.
  repeat (apply elem_of_cons in H; destruct H as [H|H]; [discriminate|]).
  now apply elem_of_nil in H.
Defined.

(** ** Trimming and comments *)

Lemma lstrip_idem s : lstrip (lstrip s) = lstrip s.
Proof.
  induction s as [|c r IH]; [reflexivity|]. simpl.
  destruct (isspace c) eqn:E; [exact IH|]. simpl. now rewrite E.
Qed.

Lemma rstrip_idem s : rstrip (rstrip s) = rstrip s.
Proof.
  induction s as [|c r IH]; [reflexivity|]. simpl.
  destruct (rstrip r) as [|c' r'] eqn:E.
  - destruct (isspace c) eqn:Hc; [reflexivity|]. simpl. now rewrite Hc.
  - simpl in *. now rewrite IH.
Qed.

Lemma lstrip_nonspace c r : isspace c = false -> lstrip (String c r) = String c r.
Proof. intros H. simpl. now rewrite H. Qed.

Lemma strip_trimmed s :
  lstrip (strip s) = strip s /\ rstrip (strip s) = strip s.
Proof.
  unfold strip. split; [|apply rstrip_idem].
  destruct (lstrip s) as [|c r] eqn:E; [reflexivity|].
  pose proof (lstrip_head s c r E) as Hc.
  destruct (rstrip_head c r Hc) as [r' ->]. now apply lstrip_nonspace.
Qed.

Lemma strip_strip s : strip (strip s) = strip s.
Proof.
  destruct (strip_trimmed s) as [H1 H2].
  unfold strip at 1. now rewrite H1, H2.
Qed.

Lemma strip_head s c r : strip s = String c r -> isspace c = false.
Proof.
  intros H. destruct (strip_trimmed s) as [H1 _]. rewrite H in H1.
  simpl in H1. destruct (isspace c) eqn:E; [|reflexivity].
  exfalso. pose proof (chars_lstrip r) as Hsub.
  assert (Hlen : String.length (lstrip r) <= String.length r).
  { clear. induction r as [|x r IH]; simpl; [lia|].
    destruct (isspace x); simpl; lia. }
  rewrite H1 in Hlen. simpl in Hlen. lia.
Qed.

Lemma before_hash_no_hash s : "#"%char ∉ chars (before_hash s).
Proof.
  unfold chars. induction s as [|c r IH]; simpl; [apply not_elem_of_nil|].
  destruct (Ascii.eqb_spec c "#") as [->|Hc]; simpl;
    [apply not_elem_of_nil|].
  intros H. apply elem_of_cons in H. destruct H as [H|H]; [congruence|].
  now apply IH.
Qed.

Lemma before_hash_id s : "#"%char ∉ chars s -> before_hash s = s.
Proof.
  unfold chars. induction s as [|c r IH]; simpl; [reflexivity|].
  intros H. destruct (Ascii.eqb_spec c "#") as [->|Hc].
  - exfalso. apply H. apply elem_of_cons. now left.
  - f_equal. apply IH. intros Hin. apply H. apply elem_of_cons. now right.
Qed.

Lemma before_hash_app x y :
  "#"%char ∉ chars x -> before_hash (x +:+ String "#" y) = x.
Proof.
  unfold chars. induction x as [|c r IH]; simpl; [reflexivity|].
  intros H. destruct (Ascii.eqb_spec c "#") as [->|Hc].
  - exfalso. apply H. apply elem_of_cons. now left.
  - f_equal. apply IH. intros Hin. apply H. apply elem_of_cons. now right.
Qed.

Lemma lstrip_app a s :
  lstrip (a +:+ s) = if String.eqb (lstrip a) "" then lstrip s
                     else lstrip a +:+ s.
Proof.
  induction a as [|c r IH]; simpl; [reflexivity|].
  destruct (isspace c); [exact IH|reflexivity].
Qed.

Lemma rstrip_app_nonspace x c y :
  isspace c = false -> exists y', rstrip (x +:+ String c y) = x +:+ String c y'.
Proof.
  intros Hc. induction x as [|d x IH]; simpl.
  - destruct (rstrip y); rewrite ?Hc; eauto.
  - destruct IH as [y' ->]. exists y'.
    destruct (x +:+ String c y') eqn:E; [|reflexivity].
    destruct x; discriminate.
Qed.

Lemma strip_empty_iff a : strip a = "" <-> lstrip a = "".
Proof.
  unfold strip. split; [|intros ->; reflexivity].
  destruct (lstrip a) as [|c r] eqn:E; [reflexivity|].
  destruct (rstrip_head c r (lstrip_head a c r E)) as [r' ->]. discriminate.
Qed.

Lemma strip_lstrip a : strip (lstrip a) = strip a.
Proof. unfold strip. now rewrite lstrip_idem. Qed.

Lemma before_hash_strip_comment a b :
  "#"%char ∉ chars a ->
  before_hash (strip (a +:+ String "#" b)) = lstrip a.
Proof.
  intros Ha. unfold strip. rewrite lstrip_app.
  destruct (String.eqb_spec (lstrip a) "") as [E|E].
  - rewrite E. simpl lstrip. simpl rstrip. destruct (rstrip b); reflexivity.
  - destruct (rstrip_app_nonspace (lstrip a) "#" b eq_refl) as [y' ->].
    apply before_hash_app. intros H. apply Ha. now apply chars_lstrip.
Qed.

(** X8. The text of a comment never reaches the output.  For a text [a]
    without ['#'], the sentence of [a] is [a] trimmed, and so is the
    sentence of [a] followed by ['#'] and anything; the line with the
    comment is ignored exactly when the line without it is. *)
Theorem X8_comment_is_dropped (a b : string) :
  "#"%char ∉ chars a ->
  sentence a = strip a
  /\ sentence (a +:+ String "#" b) = strip a
  /\ ignored (a +:+ String "#" b) = ignored a.
Proof.
  intros Ha.
  assert (H1 : before_hash (strip a) = strip a).
  { apply before_hash_id. intros H. apply Ha. now apply chars_strip. }
  pose proof (before_hash_strip_comment a b Ha) as H2.
  unfold sentence, ignored. rewrite H1, H2.
  split; [apply strip_strip|]. split; [apply strip_lstrip|].
  destruct (String.eqb_spec (lstrip a) "") as [E|E];
    destruct (String.eqb_spec (strip a) "") as [E'|E']; try reflexivity.
  - exfalso. apply E'. now apply strip_empty_iff.
  - exfalso. apply E. now apply strip_empty_iff.
Qed.

(** X8 at the last line of the sample. *)
Lemma X8_comment_is_dropped_witness :
  sentence ("foo " +:+ String "#" " bar") = strip "foo ".
Proof.
  refine (proj1 (proj2 (X8_comment_is_dropped "foo " " bar" _))).
  vm_compute. intros H.
  repeat (apply elem_of_cons in H; destruct H as [H|H]; [discriminate|]).
  now apply elem_of_nil in H.
Defined.

(** X9. Every sentence that is written is clean: for a line that is not
    ignored the sentence is not empty, holds no ['#'], neither begins nor
    ends with white space, so that trimming it again changes nothing, and
    is made of characters of the line. *)
Theorem X9_sentence_is_clean (line : string) :
  ignored line = false ->
  sentence line <> ""
  /\ ("#"%char ∉ chars (sentence line))
  /\ lstrip (sentence line) = sentence line
  /\ rstrip (sentence line) = sentence line
  /\ strip (sentence line) = sentence line
  /\ chars (sentence line) ⊆ chars line.
Proof.
  intros Hig. unfold ignored in Hig. apply String.eqb_neq in Hig.
  unfold sentence.
  destruct (strip_trimmed (before_hash (strip line))) as [T1 T2].
  split; [|split; [|split; [exact T1|split; [exact T2|split]]]].
  - rewrite strip_empty_iff.
    destruct (strip line) as [|c r] eqn:E; [now destruct Hig|].
    pose proof (strip_head line c r E) as Hc. simpl in *.
    destruct (Ascii.eqb c "#"); [now destruct Hig|].
    simpl. rewrite Hc. discriminate.
  - intros H. apply (before_hash_no_hash (strip line)).
    now apply chars_strip.
  - apply strip_strip.
  - etransitivity; [apply chars_strip|].
    etransitivity; [apply chars_before_hash|apply chars_strip].
Qed.

(** X9 at the first line of the sample. *)
Lemma X9_sentence_is_clean_witness : sentence "  hello world " <> "".
Proof.
  refine (proj1 (X9_sentence_is_clean "  hello world " _)). reflexivity.
Defined.

(** ** The identifiers *)






(** ** Files that cannot be opened *)

Lemma open_w_inr p w w' :
  open_w p w = inr w' ->
  refused w p = None /\ isdir w p = false
  /\ w' = set_fs (<[p := File ""]> (fs w)) w.
Proof.
  unfold open_w. destruct (refused w p); [discriminate|].
  destruct (isdir w p); [discriminate|]. intros [= <-]. auto.
Qed.

Lemma open_w_set_open_files l p w :
  open_w p (set_open_files l w)
  = match open_w p w with
    | inl e => inl e
    | inr w' => inr (set_open_files l w')
    end.
Proof.
  unfold open_w. simpl. destruct (refused w p); [reflexivity|].
  change (isdir (set_open_files l w) p) with (isdir w p).
  destruct (isdir w p); reflexivity.
Qed.

(** X11. When the transcription file cannot be opened, [generate_files]
    prints the message, closes the input file and exits with status 1,
    the file system being as it was.  When the transcription file opens
    and the fileids file cannot be opened, it exits in the same way, and
    the transcription file is left behind empty, created or truncated;
    nothing else has changed. *)
Theorem X11_output_cannot_be_opened (in_file : infile)
    (out_dir : option string) (w : world) (e : string) :
  (open_w (out_path out_dir (transcript_name in_file +:+ ".transcription")) w
   = inl e ->
   exists w',
     generate_files in_file out_dir w = Exit 1 w'
     /\ fs w' = fs w /\ open_files w' = []
     /\ console w'
        = console w
          ++ [Err ("Couldn't open '"
                   +:+ out_path out_dir
                         (transcript_name in_file +:+ ".transcription")
                   +:+ "' with mode 'w': " +:+ e)])
  /\ (forall w2,
        open_w (out_path out_dir
                  (transcript_name in_file +:+ ".transcription")) w
        = inr w2 ->
        open_w (out_path out_dir (transcript_name in_file +:+ ".fileids")) w2
        = inl e ->
        exists w',
          generate_files in_file out_dir w = Exit 1 w'
          /\ fs w'
             = <[out_path out_dir
                   (transcript_name in_file +:+ ".transcription")
                 := File ""]> (fs w)
          /\ open_files w' = []
          /\ console w'
             = console w
               ++ [Err ("Couldn't open '"
                        +:+ out_path out_dir
                              (transcript_name in_file +:+ ".fileids")
                        +:+ "' with mode 'w': " +:+ e)]).
Proof.
  split.
  - intros H. unfold generate_files, open_file.
    rewrite open_w_set_open_files, H.
    eexists. split; [reflexivity|]. repeat split.
  - intros w2 H2 H3. unfold generate_files, open_file.
    rewrite open_w_set_open_files, H2.
    rewrite open_w_set_open_files, open_w_set_open_files, H3.
    destruct (open_w_inr _ _ _ H2) as (_ & _ & ->).
    eexists. split; [reflexivity|]. repeat split.
Qed.

(** X11 with a directory where the transcription file should go. *)
Lemma X11_output_cannot_be_opened_witness :
  exists w',
    generate_files demo None
      (set_fs {[ "demo.transcription" := Dir ]} empty_world) = Exit 1 w'
    /\ fs w' = {[ "demo.transcription" := Dir ]} /\ open_files w' = []
    /\ console w'
       = [] ++ [Err ("Couldn't open '" +:+ "demo.transcription"
                     +:+ "' with mode 'w': " +:+ "Is a directory")].
Proof.
  refine (proj1 (X11_output_cannot_be_opened demo None
                   (set_fs {[ "demo.transcription" := Dir ]} empty_world)
                   "Is a directory") _).
  reflexivity.
Defined.

(** ** Running again *)

(** What a returning loop tells: no write it made was refused, and the
    answers of the system are what they were. *)
Lemma process_lines_returned base f2 f3 lines :
  forall count w w',
    process_lines base f2 f3 lines count w = Return tt w' ->
    writes_ok w base f2 f3 (numbered count (map sentence (kept lines)))
    /\ refused w' = refused w /\ write_error w' = write_error w
    /\ read_error w' = read_error w.
Proof.
  induction lines as [|l ls IH]; intros count w w'.
  - intros [= <-]. split; [constructor|auto].
  - rewrite process_lines_cons, kept_cons.
    destruct (ignored l); [apply IH|].
    destruct (write_error w f2 _) eqn:E2; [discriminate|].
    destruct (write_error w f3 _) eqn:E3; [discriminate|].
    intros Hrun. destruct (IH _ _ _ Hrun) as (Hok & Hr & Hw & Hd).
    split; [|auto].
    simpl. constructor; [split; assumption|exact Hok].
Qed.

(** What a returning [generate_files] tells about the opens, the read and
    the writes. *)
Lemma generate_files_returned in_file out_dir w w1 :
  generate_files in_file out_dir w = Return tt w1 ->
  refused w (out_path out_dir (transcript_name in_file +:+ ".transcription"))
    = None
  /\ isdir w (out_path out_dir (transcript_name in_file +:+ ".transcription"))
     = false
  /\ refused w (out_path out_dir (transcript_name in_file +:+ ".fileids"))
     = None
  /\ isdir w (out_path out_dir (transcript_name in_file +:+ ".fileids"))
     = false
  /\ read_error w (name in_file) = None
  /\ writes_ok w (transcript_name in_file)
       (out_path out_dir (transcript_name in_file +:+ ".transcription"))
       (out_path out_dir (transcript_name in_file +:+ ".fileids"))
       (sentences
          (after_opens in_file
             (out_path out_dir (transcript_name in_file +:+ ".transcription"))
             (out_path out_dir (transcript_name in_file +:+ ".fileids"))))
  /\ refused w1 = refused w /\ write_error w1 = write_error w
  /\ read_error w1 = read_error w.
Proof.
  unfold generate_files, open_file.
  rewrite open_w_set_open_files.
  destruct (open_w _ w) as [e|w2] eqn:H2; [discriminate|].
  rewrite !open_w_set_open_files.
  destruct (open_w _ w2) as [e|w3] eqn:H3; [discriminate|].
  destruct (open_w_inr _ _ _ H2) as (R2 & D2 & ->).
  destruct (open_w_inr _ _ _ H3) as (R3 & D3 & ->).
  cbn [read_error set_open_files set_fs].
  destruct (read_error w (name in_file)) eqn:Hread; [discriminate|].
  destruct (process_lines _ _ _ _ 1 _) as [[] w'|st w'] eqn:Hp;
    [|discriminate].
  intros [= <-].
  destruct (process_lines_returned _ _ _ _ _ _ _ Hp) as (Hok & Hr & Hw & Hd).
  split; [exact R2|]. split; [exact D2|]. split; [exact R3|]. split.
  { unfold isdir in *. simpl in D3.
    rewrite lookup_insert_ne in D3 by apply out_paths_differ. exact D3. }
  split; [reflexivity|]. split; [exact Hok|].
  unfold close_files. simpl. rewrite Hr, Hw, Hd. auto.
Qed.

(** X12. Running [generate_files] again on its own result changes
    nothing: the two files are opened for writing, so what they held is
    replaced and not added to, and a second run that follows a first run
    that returned returns as well, with the same file system and nothing
    printed. *)
Theorem X12_second_run_changes_nothing (in_file : infile)
    (out_dir : option string) (w w1 : world) :
  generate_files in_file out_dir w = Return tt w1 ->
  exists w2,
    generate_files in_file out_dir w1 = Return tt w2
    /\ fs w2 = fs w1 /\ console w2 = console w1.
Proof.
  intros Hrun.
  destruct (generate_files_returned _ _ _ _ Hrun)
    as (R2 & D2 & R3 & D3 & Hread & Hok & Hr & Hw & Hd).
  destruct (generate_files_spec in_file out_dir w R2 D2 R3 D3 Hread Hok)
    as (w1' & Hg & C2 & C3 & _ & _ & _).
  rewrite Hrun in Hg. injection Hg as <-.
  assert (D2' : isdir w1 (out_path out_dir
                            (transcript_name in_file +:+ ".transcription"))
                = false).
  { unfold isdir. now rewrite C2. }
  assert (D3' : isdir w1 (out_path out_dir
                            (transcript_name in_file +:+ ".fileids"))
                = false).
  { unfold isdir. now rewrite C3. }
  rewrite <- Hr in R2, R3. rewrite <- Hd in Hread.
  assert (Hok' : writes_ok w1 (transcript_name in_file)
            (out_path out_dir (transcript_name in_file +:+ ".transcription"))
            (out_path out_dir (transcript_name in_file +:+ ".fileids"))
            (sentences
               (after_opens in_file
                  (out_path out_dir
                     (transcript_name in_file +:+ ".transcription"))
                  (out_path out_dir
                     (transcript_name in_file +:+ ".fileids"))))).
  { unfold writes_ok in *. now rewrite Hw. }
  destruct (generate_files_spec in_file out_dir w1 R2 D2' R3 D3' Hread Hok')
    as (w2 & Hg2 & E2 & E3 & Eq & Ec & _).
  exists w2. split; [exact Hg2|]. split; [|exact Ec].
  apply map_eq. intros q.
  destruct (decide (q = out_path out_dir
                           (transcript_name in_file +:+ ".transcription")))
    as [->|N2]; [now rewrite E2, C2|].
  destruct (decide (q = out_path out_dir
                           (transcript_name in_file +:+ ".fileids")))
    as [->|N3]; [now rewrite E3, C3|].
  now apply Eq.
Qed.

(** X12 after a first run on the sample. *)
Lemma X12_second_run_changes_nothing_witness :
  exists w1 w2,
    generate_files demo None empty_world = Return tt w1
    /\ generate_files demo None w1 = Return tt w2
    /\ fs w2 = fs w1.
Proof.
  eexists. 
  destruct (X12_second_run_changes_nothing demo None empty_world _ eq_refl)
    as (w2 & H1 & H2 & _).
  exists w2. split; [reflexivity|]. split; [exact H1|exact H2].
Defined.



(** ** The directory, again *)

(** X13. What [directory] returns is usable as it is: a path it returns
    is the path it was given, is not empty and is a directory afterwards;
    no other path of the file system has changed and nothing was printed;
    and calling it again on the result returns the same and changes
    nothing.  Without a path, or with an empty one, it returns no path and
    changes nothing. *)
Theorem X13_directory_returns_a_directory (path d : option string)
    (w w1 : world) :
  directory path w = Return d w1 ->
  match d with
  | None => (path = None \/ path = Some "") /\ w1 = w
  | Some p =>
      path = Some p /\ p <> "" /\ isdir w1 p = true
      /\ (forall q, q <> p -> fs w1 !! q = fs w !! q)
      /\ console w1 = console w
  end
  /\ directory path w1 = Return d w1.
Proof.
  unfold directory. destruct path as [p|]; [|intros [= <- <-]; auto].
  destruct (String.eqb_spec p "") as [->|Hp]; [intros [= <- <-]; auto|].
  destruct (exists_ w p) eqn:He; simpl.
  - destruct (isdir w p) eqn:Hd; simpl; [|discriminate].
    intros [= <- <-]. rewrite He, Hd. simpl. auto 10.
  - unfold mkdir. destruct (refused w p); [discriminate|].
    rewrite He. intros [= <- <-].
    assert (Hd : isdir (set_fs (<[p:=Dir]> (fs w)) w) p = true).
    { unfold isdir. simpl. now rewrite lookup_insert_eq. }
    assert (He' : exists_ (set_fs (<[p:=Dir]> (fs w)) w) p = true).
    { unfold exists_. simpl. now rewrite lookup_insert_eq. }
    split; [|now rewrite He', Hd].
    split; [reflexivity|]. split; [exact Hp|]. split; [exact Hd|].
    split; [|reflexivity].
    intros q Hq. simpl. now rewrite lookup_insert_ne.
Qed.

(** X13 with a directory that is missing. *)
Lemma X13_directory_returns_a_directory_witness :
  directory (Some "out") (set_fs (<["out" := Dir]> ∅) empty_world)
  = Return (Some "out") (set_fs (<["out" := Dir]> ∅) empty_world).
Proof.
  refine (proj2 (X13_directory_returns_a_directory (Some "out") (Some "out")
                   empty_world _ _)).
  reflexivity.
Defined.

(** ** The name of the transcription *)

Lemma split_cons_form c s : exists h tl, split c s = h :: tl.
Proof.
  destruct s as [|a r]; simpl; [eauto|].
  destruct (Ascii.eqb a c); [eauto|]. destruct (split c r); eauto.
Qed.

Lemma split_none c b : c ∉ chars b -> split c b = [b].
Proof.
  unfold chars. induction b as [|a r IH]; simpl; [reflexivity|].
  intros H. destruct (Ascii.eqb_spec a c) as [->|Hne].
  - exfalso. apply H. apply elem_of_cons. now left.
  - rewrite IH; [reflexivity|]. intros Hin. apply H.
    apply elem_of_cons. now right.
Qed.

Lemma split_app c x y :
  split c (x +:+ String c y) = split c x ++ split c y.
Proof.
  induction x as [|a r IH]; simpl.
  - now rewrite Ascii.eqb_refl.
  - destruct (Ascii.eqb a c); [now rewrite IH|].
    rewrite IH. destruct (split_cons_form c r) as (h & tl & ->). reflexivity.
Qed.

Lemma join_with_split c s : join_with (String c "") (split c s) = s.
Proof.
  induction s as [|a r IH]; [reflexivity|]. simpl split.
  destruct (Ascii.eqb_spec a c) as [->|Hne].
  - destruct (split_cons_form c r) as (h & tl & E). rewrite E in *.
    simpl. simpl in IH. now rewrite IH.
  - destruct (split_cons_form c r) as (h & tl & E). rewrite E in *.
    destruct tl as [|h' tl]; simpl in *; now rewrite <- IH.
Qed.

Lemma last_app_cons {A} (l1 l2 : list A) x d :
  List.last (l1 ++ x :: l2) d = List.last (x :: l2) d.
Proof.
  induction l1 as [|y l1 IH]; [reflexivity|].
  simpl app. rewrite <- IH. simpl. now destruct (l1 ++ x :: l2) eqn:E;
    [destruct l1; discriminate|].
Qed.

Lemma basename_join dir b :
  SEP ∉ chars b -> basename (dir +:+ String SEP b) = b.
Proof.
  intros Hb. unfold basename. rewrite split_app, (split_none SEP b Hb).
  apply last_app_cons.
Qed.

Lemma basename_plain b : SEP ∉ chars b -> basename b = b.
Proof. intros Hb. unfold basename. now rewrite (split_none SEP b Hb). Qed.

Lemma splitext_root_ext stem ext :
  DOT ∉ chars ext -> all_dots stem = false ->
  splitext_root (stem +:+ String DOT ext) = stem.
Proof.
  intros Hext Hstem. unfold splitext_root.
  rewrite split_app, (split_none DOT ext Hext).
  rewrite removelast_last.
  change (join_with "." (split DOT stem))
    with (join_with (String DOT "") (split DOT stem)).
  rewrite join_with_split, Hstem.
  destruct (split_cons_form DOT stem) as (h & tl & ->).
  destruct tl; reflexivity.
Qed.

Lemma splitext_root_plain b : DOT ∉ chars b -> splitext_root b = b.
Proof.
  intros Hb. unfold splitext_root. now rewrite (split_none DOT b Hb).
Qed.

(** X14. The two output files are named after the input file without
    its directories and without its last extension.  For a stem that is
    not made of dots only and an extension without dot, neither holding a
    separator, the input files [stem.ext] and [dir/stem.ext] both give
    the name [stem]; a file name without any dot is taken whole; and a
    name made of a dot and a word, as the hidden files have, keeps its
    dot. *)
Theorem X14_name_of_the_transcription (dir stem ext text : string) :
  SEP ∉ chars stem -> SEP ∉ chars ext -> DOT ∉ chars ext ->
  all_dots stem = false ->
  transcript_name {| name := stem +:+ String DOT ext; content := text |}
  = stem
  /\ transcript_name {| name := dir +:+ String SEP (stem +:+ String DOT ext);
                        content := text |} = stem
  /\ transcript_name {| name := dir +:+ String SEP ext; content := text |}
     = ext
  /\ transcript_name {| name := dir +:+ String SEP (String DOT ext);
                        content := text |} = String DOT ext.
Proof.
  intros Hs He Hd Hstem.
  assert (Hb : SEP ∉ chars (stem +:+ String DOT ext)).
  { rewrite chars_append, elem_of_app. unfold chars in *. simpl.
    rewrite elem_of_cons. intros [H|[H|H]]; [now apply Hs|discriminate|].
    now apply He. }
  assert (Hh : SEP ∉ chars (String DOT ext)).
  { unfold chars in *. simpl. rewrite elem_of_cons.
    intros [H|H]; [discriminate|now apply He]. }
  unfold transcript_name. simpl name.
  rewrite (basename_plain _ Hb), (basename_join dir _ Hb),
    (basename_join dir _ He), (basename_join dir _ Hh).
  rewrite (splitext_root_ext stem ext Hd Hstem), (splitext_root_plain ext Hd).
  repeat split.
  change (String DOT ext) with ("" +:+ String DOT ext).
  unfold splitext_root. rewrite split_app, (split_none DOT ext Hd).
  reflexivity.
Qed.

(** X14 at [corpus/demo.txt]. *)
Lemma X14_name_of_the_transcription_witness :
  transcript_name {| name := "corpus" +:+ String SEP ("demo" +:+ String DOT "txt");
                     content := "" |} = "demo".
Proof.
  refine (proj1 (proj2 (X14_name_of_the_transcription "corpus" "demo" "txt" ""
                          _ _ _ _))); try reflexivity.
  all: vm_compute; intros H;
    repeat (apply elem_of_cons in H; destruct H as [H|H]; [discriminate|]);
    now apply elem_of_nil in H.
Defined.

End MakeTranscriptFilesMore.
